(** * QtGuidedUI: the step sequencer and the tooltip positioner

    A shallow embedding of [QtGuidedUI/core.py].  The guide object
    ([InteractiveGuide]) is a record of its attributes; the widget toolkit
    it drives (object tree, style sheets, geometry, dialogs, the logger) is
    an explicit [World] plus a chronological [trace] of the effects the
    code performs.  Every method is a function from state to state. *)

From Equations Require Import Equations.
From Equations.Prop Require Import Logic.
From stdpp Require Import gmap strings list sorting.
From Stdlib Require Import ZArith.

Local Open Scope Z_scope.

(** ** Configuration data *)

(** A step record of the JSON configuration.  [order], [description],
    [image] and [pre_action] are read with [dict.get], so each may be
    absent; [object_name] is mandatory in the schema. *)
Record Step := mkStep {
  order : option Z;
  object_name : string;
  description : option string;
  image : option string;
  pre_action : option string
}.

(** The loaded configuration dictionary; every key is read with
    [guide_data.get(key, default)]. *)
Record GuideData := mkGuideData {
  cfg_steps : option (list Step);
  cfg_intro_message : option string;
  cfg_outro_message : option string;
  cfg_dialog_image_width : option Z
}.

(** [lambda x: x.get("order", 0)] *)
Definition order_key (x : Step) : Z := default 0 (order x).

(** Python truthiness of a [str]: only the empty string is false. *)
Definition str_truthy (s : string) : bool :=
  match s with
  | EmptyString => false
  | String _ _ => true
  end.

(** ** [sorted(iterable, key=...)]

    Python's [sorted] is a stable sort; its result is the one a stable
    insertion sort computes: an element goes in front of the first
    element whose key is not smaller than its own. *)
Section Sorted.
Context {A : Type} (key : A → Z).

Fixpoint insert_by_key (x : A) (l : list A) : list A :=
  match l with
  | [] => [x]
  | y :: ys =>
      if key x <=? key y then x :: y :: ys
      else y :: insert_by_key x ys
  end.

Definition sorted (l : list A) : list A := foldr insert_by_key [] l.

Definition key_le (x y : A) : Prop := key x ≤ key y.

End Sorted.

(** [seq[i]] for a Python list and an [int] index: a negative index counts
    from the end; [None] stands for [IndexError]. *)
Definition py_getitem {A} (l : list A) (i : Z) : option A :=
  let n := Z.of_nat (length l) in
  if 0 <=? i then l !! Z.to_nat i
  else if - n <=? i then l !! Z.to_nat (n + i)
  else None.

(** ** Geometry of the toolkit: [QPoint], [QSize], [QRect] *)

Record QPoint := mkQPoint { pt_x : Z; pt_y : Z }.
Record QSize := mkQSize { width : Z; height : Z }.

(** A [QRect] stores its corners; the right and bottom edges are
    [left + width - 1] and [top + height - 1]. *)
Record QRect := mkQRect { x1 : Z; y1 : Z; x2 : Z; y2 : Z }.

Definition qpoint_add (p q : QPoint) : QPoint :=
  mkQPoint (pt_x p + pt_x q) (pt_y p + pt_y q).

Definition rect_of_size (s : QSize) : QRect :=
  mkQRect 0 0 (width s - 1) (height s - 1).
Definition rect_width (r : QRect) : Z := x2 r - x1 r + 1.
Definition rect_height (r : QRect) : Z := y2 r - y1 r + 1.
Definition topLeft (r : QRect) : QPoint := mkQPoint (x1 r) (y1 r).
Definition bottomLeft (r : QRect) : QPoint := mkQPoint (x1 r) (y2 r).
(** [QRect::center] divides in C++, truncating towards zero. *)
Definition center (r : QRect) : QPoint :=
  mkQPoint ((x1 r + x2 r) ÷ 2) ((y1 r + y2 r) ÷ 2).

(** What the positioner reads of a widget: where its local origin lies on
    the screen and how large it is. *)
Record WidgetGeometry := mkGeometry {
  global_origin : QPoint;
  widget_size : QSize
}.

(** [widget.rect()] and [widget.mapToGlobal(p)] *)
Definition rect (g : WidgetGeometry) : QRect := rect_of_size (widget_size g).
Definition mapToGlobal (g : WidgetGeometry) (p : QPoint) : QPoint :=
  qpoint_add p (global_origin g).

(** [InteractiveGuide._calculate_tooltip_position]; Python's [//] on
    integers is floor division, which is [Z.div]. *)
Definition _calculate_tooltip_position
    (widget parent_widget : WidgetGeometry) (dialog_size : QSize) : QPoint :=
  let widget_rect := rect widget in
  let widget_center := mapToGlobal widget (center widget_rect) in
  let parent_rect := rect parent_widget in
  let parent_global_pos := mapToGlobal parent_widget (topLeft parent_rect) in
  let parent_center :=
    qpoint_add parent_global_pos
      (mkQPoint (rect_width parent_rect / 2) (rect_height parent_rect / 2)) in
  let x := pt_x widget_center - width dialog_size / 2 in
  let y :=
    if pt_y widget_center <? pt_y parent_center
    then pt_y (mapToGlobal widget (bottomLeft widget_rect)) + 10
    else pt_y (mapToGlobal widget (topLeft widget_rect))
         - height dialog_size - 10 in
  let x :=
    if x <? pt_x parent_global_pos then pt_x parent_global_pos + 10
    else if x + width dialog_size
            >? pt_x parent_global_pos + rect_width parent_rect
    then pt_x parent_global_pos + rect_width parent_rect
         - width dialog_size - 10
    else x in
  mkQPoint x y.

(** The quantities the positioner's properties speak of: the widget's
    centre, top and bottom edge on the screen, and the centre, left edge and
    width of the host window. *)
Definition widget_center_x (widget : WidgetGeometry) : Z :=
  pt_x (global_origin widget) + (width (widget_size widget) - 1) ÷ 2.
Definition widget_center_y (widget : WidgetGeometry) : Z :=
  pt_y (global_origin widget) + (height (widget_size widget) - 1) ÷ 2.
Definition widget_top (widget : WidgetGeometry) : Z :=
  pt_y (global_origin widget).
Definition widget_bottom (widget : WidgetGeometry) : Z :=
  pt_y (global_origin widget) + height (widget_size widget) - 1.
Definition parent_center_y (parent_widget : WidgetGeometry) : Z :=
  pt_y (global_origin parent_widget) + height (widget_size parent_widget) / 2.
Definition parent_left (parent_widget : WidgetGeometry) : Z :=
  pt_x (global_origin parent_widget).
Definition parent_width (parent_widget : WidgetGeometry) : Z :=
  width (widget_size parent_widget).

(** The dialog, placed at [pos], lies within the horizontal extent of the
    host window. *)
Definition within_host_horizontally (parent_widget : WidgetGeometry)
    (dialog_size : QSize) (pos : QPoint) : Prop :=
  pt_x (global_origin parent_widget) ≤ pt_x pos
  ∧ pt_x pos + width dialog_size
    ≤ pt_x (global_origin parent_widget) + width (widget_size parent_widget).

(** ** The toolkit side: widgets, the host and the effects *)

(** A widget is a toolkit object; the model keeps its identity.  What a
    widget reference counts as in a condition is the toolkit's matter (see
    [widget_bool] below); [None] is false. *)
Definition Widget := nat.

Inductive Level := INFO | WARNING.

Section Guide.
(** Whatever state of the host application its callbacks act on. *)
Context {App : Type}.

(** The host widget ([parent_widget]) as the guide sees it: the widgets of
    the application below it, with their object names, in the order
    [findChild] searches them, the style sheet of every widget (absent
    means the empty default), the truth value of every widget, the
    geometry, and the application's own state.

    [widget_bool] is [bool(widget)]: a widget class with a length
    ([__len__], as the bindings give to list, combo box and tab widgets) is
    false while it is empty; every other widget is true.

    The dialogs the guide creates are owned by the host too; they bear no
    object name and are not listed in [children]: the lookup of a step by
    an empty object name is outside the model. *)
Record World := mkWorld {
  children : list (Widget * string);
  styleSheets : gmap Widget string;
  widget_bool : Widget → bool;
  geometry : Widget → WidgetGeometry;
  parent_geometry : WidgetGeometry;
  app : App
}.

(** An effect the guide performs on the toolkit, in the order performed. *)
Inductive Event :=
| EvLog (level : Level) (message : string)
| EvMessageDialog (title message button_text : string)
| EvCall (name : string)
| EvTooltipDialog (widget : Widget) (step : Step) (pos : QPoint)
| EvToolTipText (pos : QPoint) (text : string)
| EvRaise (exception : string).

(** Calling a host callback: it returns, or raises an [Exception] with a
    message; either way it may have changed the host.  A callback acts on
    the host only: it does not call back into the guide. *)
Inductive Outcome :=
| Returns (w : World)
| Raises (e : string) (w : World).

(** [getattr(parent_widget, name, None)] *)
Inductive Attr :=
| NoAttr
| NotCallable
| Callable (f : World → Outcome).

(** The attributes of the host widget, the size [adjustSize] gives the
    tooltip dialog of a step, and [os.path.join]. *)
Variable getattr : string → Attr.
Variable adjustSize : Step → QSize.
Variable os_path_join : string → string → string.

Fixpoint find_by_name (name : string) (l : list (Widget * string))
    : option Widget :=
  match l with
  | [] => None
  | (w, n) :: l' => if String.eqb n name then Some w else find_by_name name l'
  end.

Fixpoint name_of (w : Widget) (l : list (Widget * string)) : string :=
  match l with
  | [] => ""
  | (w', n) :: l' => if Nat.eqb w' w then n else name_of w l'
  end.

(** [parent_widget.findChild(QWidget, name)], [widget.objectName()],
    [widget.styleSheet()], [widget.setStyleSheet(s)] *)
Definition findChild (wd : World) (name : string) : option Widget :=
  find_by_name name (children wd).
Definition objectName (wd : World) (w : Widget) : string :=
  name_of w (children wd).
Definition styleSheet (wd : World) (w : Widget) : string :=
  default "" (styleSheets wd !! w).
Definition setStyleSheet (w : Widget) (s : string) (wd : World) : World :=
  mkWorld (children wd) (<[w := s]> (styleSheets wd)) (widget_bool wd)
          (geometry wd) (parent_geometry wd) (app wd).

(** ** The guide and its run-time state

    The attributes of [InteractiveGuide], the world they act on, the
    number of tooltip dialogs currently shown, the trace of effects, and
    two history variables used only in specifications: the steps
    fetched so far, and the style overrides not yet undone (widget,
    style saved when it was overridden). *)
Record State := mkState {
  steps : list Step;
  intro_message : string;
  outro_message : string;
  dialog_image_width : Z;
  images_dir : string;
  current_step_index : Z;
  current_widget : option Widget;
  current_widget_original_style : option string;
  world : World;
  open_tooltips : nat;
  trace : list Event;
  visited : list Step;
  overridden : list (Widget * string)
}.

Definition set_current_step_index (i : Z) (st : State) : State :=
  mkState (steps st) (intro_message st) (outro_message st)
    (dialog_image_width st) (images_dir st) i (current_widget st)
    (current_widget_original_style st) (world st) (open_tooltips st)
    (trace st) (visited st) (overridden st).

Definition set_current (w : option Widget) (s : option string)
    (st : State) : State :=
  mkState (steps st) (intro_message st) (outro_message st)
    (dialog_image_width st) (images_dir st) (current_step_index st) w s
    (world st) (open_tooltips st) (trace st) (visited st) (overridden st).

Definition set_world (wd : World) (st : State) : State :=
  mkState (steps st) (intro_message st) (outro_message st)
    (dialog_image_width st) (images_dir st) (current_step_index st)
    (current_widget st) (current_widget_original_style st) wd
    (open_tooltips st) (trace st) (visited st) (overridden st).

Definition set_open_tooltips (n : nat) (st : State) : State :=
  mkState (steps st) (intro_message st) (outro_message st)
    (dialog_image_width st) (images_dir st) (current_step_index st)
    (current_widget st) (current_widget_original_style st) (world st) n
    (trace st) (visited st) (overridden st).

Definition emit (e : Event) (st : State) : State :=
  mkState (steps st) (intro_message st) (outro_message st)
    (dialog_image_width st) (images_dir st) (current_step_index st)
    (current_widget st) (current_widget_original_style st) (world st)
    (open_tooltips st) (trace st ++ [e]) (visited st) (overridden st).

Definition set_visited (l : list Step) (st : State) : State :=
  mkState (steps st) (intro_message st) (outro_message st)
    (dialog_image_width st) (images_dir st) (current_step_index st)
    (current_widget st) (current_widget_original_style st) (world st)
    (open_tooltips st) (trace st) l (overridden st).

Definition set_overridden (l : list (Widget * string)) (st : State)
    : State :=
  mkState (steps st) (intro_message st) (outro_message st)
    (dialog_image_width st) (images_dir st) (current_step_index st)
    (current_widget st) (current_widget_original_style st) (world st)
    (open_tooltips st) (trace st) (visited st) l.

Definition HIGHLIGHT_STYLE : string := "border: 3px solid green;".

(** [InteractiveGuide.__init__] *)
Definition init (guide_data : GuideData) (dir : string) (wd : World)
    : State :=
  mkState
    (sorted order_key (default [] (cfg_steps guide_data)))
    (default "Welcome to the guide!" (cfg_intro_message guide_data))
    (default "Guide completed!" (cfg_outro_message guide_data))
    (default 500 (cfg_dialog_image_width guide_data))
    dir (-1) None None wd 0%nat [] [] [].

(** Dropping the first occurrence of a pair from the override history. *)
Fixpoint discharge (w : Widget) (s : string) (l : list (Widget * string))
    : list (Widget * string) :=
  match l with
  | [] => []
  | (w', s') :: l' =>
      if Nat.eqb w' w && String.eqb s' s then l'
      else (w', s') :: discharge w s l'
  end.

(** [InteractiveGuide.highlight_widget]; the override is entered in the
    history. *)
Definition highlight_widget (widget : Widget) (st : State) : State :=
  let st :=
    emit (EvLog INFO
            ("Highlighting widget: " +:+ objectName (world st) widget)) st in
  let saved := styleSheet (world st) widget in
  let st := set_current (Some widget) (Some saved) st in
  let st := set_overridden ((widget, saved) :: overridden st) st in
  set_world (setStyleSheet widget HIGHLIGHT_STYLE (world st)) st.

(** The condition [self.current_widget and
    self.current_widget_original_style is not None]: the widget is put to
    the truth test, the style is compared with [None]. *)
Definition has_style_to_restore (st : State) : option (Widget * string) :=
  match current_widget st, current_widget_original_style st with
  | Some w, Some s => if widget_bool (world st) w then Some (w, s) else None
  | _, _ => None
  end.

(** [InteractiveGuide.restore_widget_style]; the override that is undone
    leaves the history. *)
Definition restore_widget_style (st : State) : State :=
  match has_style_to_restore st with
  | Some (w, s) =>
      let st :=
        emit (EvLog INFO
                ("Restoring widget style for: " +:+ objectName (world st) w))
             st in
      let st := set_world (setStyleSheet w s (world st)) st in
      let st := set_overridden (discharge w s (overridden st)) st in
      set_current None None st
  | None => emit (EvLog WARNING "No widget style to restore.") st
  end.

(** [InteractiveGuide.show_message_dialog]: the dialog runs modally until
    the user presses its button ([click = true]: the dialog is accepted
    and the callback, if any, runs) or dismisses it otherwise. *)
Definition show_message_dialog (title message button_text : string)
    (callback : option (State → State)) (click : bool) (st : State)
    : State :=
  let st := emit (EvMessageDialog title message button_text) st in
  if click then
    match callback with
    | Some k => k st
    | None => st
    end
  else st.

(** [InteractiveGuide.show_step_tooltip]: the dialog built for the step
    (description, image, "Next" and "Skip Guide" buttons) is placed at the
    computed position and shown, without blocking; its buttons are the
    transitions [next_step_action] and [skip_guide_action] of a run. *)
Definition show_step_tooltip (widget : Widget) (step : Step) (st : State)
    : State :=
  let st :=
    match image step with
    | Some image_filename =>
        if str_truthy image_filename then
          emit (EvLog INFO
                  ("Using image path: "
                   +:+ os_path_join (images_dir st) image_filename)) st
        else st
    | None => st
    end in
  let pos :=
    _calculate_tooltip_position (geometry (world st) widget)
      (parent_geometry (world st)) (adjustSize step) in
  let st := emit (EvTooltipDialog widget step pos) st in
  set_open_tooltips (S (open_tooltips st)) st.

(** The pre-action block of [next_step] (the [if pre_action:] statement). *)
Definition run_pre_action (step : Step) (st : State) : State :=
  match pre_action step with
  | Some name =>
      if str_truthy name then
        let st := emit (EvLog INFO ("Executing pre-action: " +:+ name)) st in
        match getattr name with
        | Callable action_callable =>
            let st := emit (EvCall name) st in
            match action_callable (world st) with
            | Returns wd => set_world wd st
            | Raises e wd =>
                emit (EvLog WARNING
                        ("Pre-action '" +:+ name +:+ "' failed: " +:+ e))
                     (set_world wd st)
            end
        | _ =>
            emit (EvLog WARNING
                    ("Pre-action '" +:+ name +:+ "' is not callable.")) st
        end
      else st
  | None => st
  end.

(** How one activation of [next_step] ends: it returns, or it makes the
    recursive call [self.next_step()] (and returns what that leaves). *)
Inductive Flow :=
| Return (st : State)
| Recurse (st : State).

(** The body of [InteractiveGuide.next_step] up to its recursive call.  The
    completion dialog has no callback, so how the user closes it makes no
    difference.  An [IndexError] of [self.steps[...]] would leave the method
    at once; every caller has [next_step()] as its last statement. *)
Definition next_step_body (st : State) : Flow :=
  let st := set_current_step_index (current_step_index st + 1) st in
  if current_step_index st >=? Z.of_nat (length (steps st)) then
    Return (show_message_dialog "Guide Completed" (outro_message st)
              "Close" None true st)
  else
    match py_getitem (steps st) (current_step_index st) with
    | None => Return (emit (EvRaise "IndexError") st)
    | Some step =>
        let st := set_visited (visited st ++ [step]) st in
        let st := run_pre_action step st in
        match findChild (world st) (object_name step) with
        | None =>
            Recurse
              (emit (EvLog WARNING
                       ("Widget '" +:+ object_name step
                        +:+ "' not found. Skipping this step.")) st)
        | Some widget =>
            Return (show_step_tooltip widget step
                      (highlight_widget widget st))
        end
    end.

(** The steps still ahead of the cursor: what the recursion descends on. *)
Definition remaining (st : State) : nat :=
  Z.to_nat (Z.of_nat (length (steps st)) - current_step_index st).

(** [InteractiveGuide.next_step]: the body, and the recursive call when a
    missing widget makes the step skip itself. *)
Equations? next_step (st : State) : State by wf (remaining st) lt :=
  next_step st with inspect (next_step_body st) := {
    | exist _ (Return st') _ => st';
    | exist _ (Recurse st') Hbody => next_step st' }.
Proof.
  clear next_step. unfold remaining.
  unfold next_step_body in Hbody; simpl in Hbody.
  destruct (Z.geb_spec (current_step_index st + 1)
              (Z.of_nat (length (steps st)))) as [Hge|Hlt]; [done|].
  destruct (py_getitem _ _) as [step|]; [|done].
  destruct (findChild _ _); [done|].
  injection Hbody as <-.
  unfold run_pre_action; repeat case_match; simpl; lia.
Qed.

(** [next_step] above is the method on a stack that has room for all the
    activations it nests.  The interpreter bounds the nesting: each missing
    widget adds one activation, and beyond the recursion limit the call
    ends in a [RecursionError].  [depth] is the number of activations the
    stack has room for; an activation entered beyond that moves the cursor
    and raises at its first call, as in the skip of one more step. *)
Inductive Ended :=
| Returned (st : State)
| RecursionError (st : State).

Fixpoint next_step_on_stack (depth : nat) (st : State) : Ended :=
  match depth with
  | O =>
      RecursionError
        (set_current_step_index (current_step_index st + 1) st)
  | S depth' =>
      match next_step_body st with
      | Return st' => Returned st'
      | Recurse st' => next_step_on_stack depth' st'
      end
  end.

(** [InteractiveGuide.start]; [click] tells whether the user presses
    "Start" on the introduction dialog or dismisses it. *)
Definition start (click : bool) (st : State) : State :=
  show_message_dialog "Interactive Guide" (intro_message st) "Start"
    (Some next_step) click st.

(** [InteractiveGuide.next_step_action]: the "Next" button of a tooltip. *)
Definition next_step_action (st : State) : State :=
  let st := set_open_tooltips (pred (open_tooltips st)) st in
  let st := restore_widget_style st in
  next_step st.

(** [InteractiveGuide.skip_guide_action]: the "Skip Guide" button. *)
Definition skip_guide_action (st : State) : State :=
  let st := set_open_tooltips (pred (open_tooltips st)) st in
  let st := restore_widget_style st in
  emit (EvToolTipText
          (mapToGlobal (parent_geometry (world st)) (mkQPoint 100 100))
          "Guide skipped.") st.

(** ** Guide runs

    All transitions happen on user callbacks.  A run begins with [start]
    on a guide that has not advanced yet; afterwards the only controls are
    the two buttons of a tooltip dialog that is on screen. *)
Inductive run_step : State → State → Prop :=
| run_start click st :
    current_step_index st = -1 →
    run_step st (start click st)
| run_next st :
    (0 < open_tooltips st)%nat →
    run_step st (next_step_action st)
| run_skip st :
    (0 < open_tooltips st)%nat →
    run_step st (skip_guide_action st).

Definition reachable (guide_data : GuideData) (dir : string) (wd : World)
    (st : State) : Prop :=
  rtc run_step (init guide_data dir wd) st.

(** What the user interface allows at any time: [start] has no guard, and
    the tooltip dialog does not block the host, so the host can call
    [start] again while a tooltip is on screen. *)
Inductive user_step : State → State → Prop :=
| user_start click st :
    user_step st (start click st)
| user_next st :
    (0 < open_tooltips st)%nat →
    user_step st (next_step_action st)
| user_skip st :
    (0 < open_tooltips st)%nat →
    user_step st (skip_guide_action st).

(** The widget the guide holds, if any, is true in a truth test. *)
Definition held_widget_true (st : State) : Prop :=
  ∀ w, current_widget st = Some w → widget_bool (world st) w = true.

(** The uses of the guide in which [start] is called only while no tooltip
    is on screen, and a button of the tooltip is pressed only while the
    widget held is true in a truth test. *)
Inductive orderly_step : State → State → Prop :=
| orderly_start click st :
    open_tooltips st = O →
    orderly_step st (start click st)
| orderly_next st :
    (0 < open_tooltips st)%nat →
    held_widget_true st →
    orderly_step st (next_step_action st)
| orderly_skip st :
    (0 < open_tooltips st)%nat →
    held_widget_true st →
    orderly_step st (skip_guide_action st).

Definition orderly (guide_data : GuideData) (dir : string) (wd : World)
    (st : State) : Prop :=
  rtc orderly_step (init guide_data dir wd) st.

(** Pressing "Next" on the current tooltip, up to [n] times. *)
Fixpoint press_next (n : nat) (st : State) : State :=
  match n with
  | O => st
  | S n' =>
      match open_tooltips st with
      | O => st
      | S _ => press_next n' (next_step_action st)
      end
  end.

(** The completion dialogs among the effects performed so far. *)
Definition is_completion_dialog (e : Event) : bool :=
  match e with
  | EvMessageDialog title _ _ => String.eqb title "Guide Completed"
  | _ => false
  end.

Definition completion_dialogs (st : State) : list Event :=
  filter (λ e, is_completion_dialog e = true) (trace st).

Definition outro_dialog (st : State) : Event :=
  EvMessageDialog "Guide Completed" (outro_message st) "Close".

(** The log record of a step whose widget is missing. *)
Definition widget_not_found (step : Step) : Event :=
  EvLog WARNING
    ("Widget '" +:+ object_name step +:+ "' not found. Skipping this step.").

(** A pre-action fails when its name has no callable attribute on the
    host, or when the call raises; [wd] is the host it leaves behind and
    [warning] the record logged. *)
Inductive pre_action_fails (name : string) (wd0 : World)
    : World → Event → Prop :=
| fails_no_attr :
    getattr name = NoAttr →
    pre_action_fails name wd0 wd0
      (EvLog WARNING ("Pre-action '" +:+ name +:+ "' is not callable."))
| fails_not_callable :
    getattr name = NotCallable →
    pre_action_fails name wd0 wd0
      (EvLog WARNING ("Pre-action '" +:+ name +:+ "' is not callable."))
| fails_raises f e wd :
    getattr name = Callable f →
    f wd0 = Raises e wd →
    pre_action_fails name wd0 wd
      (EvLog WARNING ("Pre-action '" +:+ name +:+ "' failed: " +:+ e)).

(** The host a callback leaves behind, however it ends. *)
Definition outcome_world (o : Outcome) : World :=
  match o with
  | Returns wd => wd
  | Raises _ wd => wd
  end.

(** The state of [next_step] after [self.current_step_index += 1], and
    after the pre-action block of the step it fetched. *)
Definition advanced (st : State) : State :=
  set_current_step_index (current_step_index st + 1) st.

Definition fetched (step : Step) (st : State) : State :=
  run_pre_action step
    (set_visited (visited st ++ [step]) (advanced st)).

(** The four ways through the body of [next_step]. *)
Inductive body_spec (st : State) : Flow → Prop :=
| body_completed :
    Z.of_nat (length (steps st)) ≤ current_step_index st + 1 →
    body_spec st (Return (emit (outro_dialog st) (advanced st)))
| body_index_error :
    current_step_index st + 1 < Z.of_nat (length (steps st)) →
    py_getitem (steps st) (current_step_index st + 1) = None →
    body_spec st (Return (emit (EvRaise "IndexError") (advanced st)))
| body_skipped step :
    current_step_index st + 1 < Z.of_nat (length (steps st)) →
    py_getitem (steps st) (current_step_index st + 1) = Some step →
    findChild (world (fetched step st)) (object_name step) = None →
    body_spec st (Recurse (emit (widget_not_found step) (fetched step st)))
| body_displayed step widget :
    current_step_index st + 1 < Z.of_nat (length (steps st)) →
    py_getitem (steps st) (current_step_index st + 1) = Some step →
    findChild (world (fetched step st)) (object_name step) = Some widget →
    body_spec st
      (Return (show_step_tooltip widget step
                 (highlight_widget widget (fetched step st)))).

(** What a call of [next_step] can leave: a step on display, that is the
    step under the cursor with its widget highlighted and its tooltip the
    last thing shown, or the completion dialog. *)
Definition displays_step (st st' : State) : Prop :=
  ∃ step widget pos,
    current_step_index st' < Z.of_nat (length (steps st'))
    ∧ py_getitem (steps st') (current_step_index st') = Some step
    ∧ current_widget st' = Some widget
    ∧ last (trace st') = Some (EvTooltipDialog widget step pos)
    ∧ open_tooltips st' = S (open_tooltips st).

Definition shows_outro (st st' : State) : Prop :=
  Z.of_nat (length (steps st')) ≤ current_step_index st'
  ∧ last (trace st') = Some (outro_dialog st')
  ∧ open_tooltips st' = open_tooltips st.

(** The invariant of a run: the cursor stays between -1 and the number of
    steps, the steps fetched are the step list up to the cursor, the
    completion dialog has been shown once the cursor is past the last
    step and not before, and at most one tooltip is on screen, for a step
    of the list. *)
Definition run_inv (st : State) : Prop :=
  -1 ≤ current_step_index st ≤ Z.of_nat (length (steps st))
  ∧ visited st = take (Z.to_nat (current_step_index st + 1)) (steps st)
  ∧ completion_dialogs st
    = (if Z.of_nat (length (steps st)) <=? current_step_index st
       then [outro_dialog st] else [])
  ∧ (open_tooltips st ≤ 1)%nat
  ∧ (open_tooltips st = 1%nat →
     0 ≤ current_step_index st < Z.of_nat (length (steps st))).

(** The invariant of the orderly uses: the single override, if any,
    belongs to the tooltip on screen: its widget carries the highlight
    style and the guide holds the widget and the style saved for it. *)
Definition held_inv (st : State) : Prop :=
  match open_tooltips st with
  | O =>
      current_widget st = None
      ∧ current_widget_original_style st = None
      ∧ overridden st = []
  | S O =>
      ∃ w o,
        current_widget st = Some w
        ∧ current_widget_original_style st = Some o
        ∧ overridden st = [(w, o)]
        ∧ styleSheet (world st) w = HIGHLIGHT_STYLE
  | _ => False
  end.

(** The order of two steps by their [order] field, 0 when it is absent. *)
Definition order_of (step : Step) : Z :=
  match order step with
  | Some n => n
  | None => 0
  end.

Definition in_order (x y : Step) : Prop := order_of x ≤ order_of y.

(** A call of [next_step] made with room for [depth] activations gets
    somewhere: it returns, with a step on display or the completion
    dialog. *)
Definition gets_somewhere (depth : nat) (st : State) : Prop :=
  ∃ st',
    next_step_on_stack depth st = Returned st'
    ∧ (displays_step st st' ∨ shows_outro st st').

(** A failing pre-action makes the sequencer pass over the step: what
    the error-handling summary of the specification reads as. *)
Definition failure_skips_step (st : State) : Prop :=
  ∀ step name wd warning,
    py_getitem (steps st) (current_step_index st + 1) = Some step →
    pre_action step = Some name →
    str_truthy name = true →
    pre_action_fails name (world st) wd warning →
    current_step_index st + 1 < current_step_index (next_step st).
End Guide.

Arguments World : clear implicits.
Arguments State : clear implicits.
Arguments Event : clear implicits.
Arguments Attr : clear implicits.
Arguments Outcome : clear implicits.
Arguments Flow : clear implicits.
Arguments Ended : clear implicits.

(** ** The sample application

    The host of [sample/sample.py]: a window with a save button, a tab
    widget whose second page is the settings page, and the callback
    [show_settings_tab].  The state its callback acts on is the page on
    display.  The guide configuration is an example in the documented
    schema. *)
Module Sample.
Inductive Tab := Home | Settings.

Definition btnSave : Widget := 1%nat.
Definition mainTabs : Widget := 2%nat.
Definition tabSettings : Widget := 3%nat.

Definition geometry_of (w : Widget) : WidgetGeometry :=
  match w with
  | 1%nat => mkGeometry (mkQPoint 110 110) (mkQSize 680 30)
  | 2%nat => mkGeometry (mkQPoint 110 150) (mkQSize 680 300)
  | _ => mkGeometry (mkQPoint 112 180) (mkQSize 676 268)
  end.

Definition window : World Tab :=
  mkWorld
    [(btnSave, "btnSave"); (mainTabs, "mainTabs");
     (tabSettings, "tabSettings")]
    ∅ (λ _, true) geometry_of
    (mkGeometry (mkQPoint 100 100) (mkQSize 700 400)) Home.

(** [MyApp.show_settings_tab] *)
Definition show_settings_tab (wd : World Tab) : Outcome Tab :=
  Returns (mkWorld (children wd) (styleSheets wd) (widget_bool wd)
             (geometry wd) (parent_geometry wd) Settings).

(** A callback that raises, for the failure path. *)
Definition broken_action (wd : World Tab) : Outcome Tab :=
  Raises "no such tab" wd.

(** The attributes of the window that the configurations below name:
    [tabs] is the tab widget itself, which is not callable. *)
Definition getattr (name : string) : Attr Tab :=
  if String.eqb name "show_settings_tab" then Callable show_settings_tab
  else if String.eqb name "broken_action" then Callable broken_action
  else if String.eqb name "tabs" then NotCallable
  else NoAttr.

Definition adjustSize (step : Step) : QSize := mkQSize 300 120.
Definition os_path_join (a b : string) : string := a +:+ "/" +:+ b.

Definition step_save : Step :=
  mkStep (Some 1) "btnSave" (Some "Save your work here.") (Some "save.png")
    None.
Definition step_tabs : Step :=
  mkStep (Some 2) "mainTabs" (Some "Switch between pages.") None None.
Definition step_settings : Step :=
  mkStep (Some 3) "tabSettings" (Some "Change the settings.") None
    (Some "show_settings_tab").
Definition step_export : Step :=
  mkStep (Some 4) "btnExport" (Some "Export the data.") None
    (Some "show_settings_tab").
Definition step_unordered : Step :=
  mkStep None "btnHelp" None None None.

Definition guide_data : GuideData :=
  mkGuideData
    (Some [step_tabs; step_export; step_save; step_unordered; step_settings])
    None (Some "All done.") None.

(** A configuration whose first step names a pre-action that is not
    callable and whose second names one that raises; the widgets of both
    exist. *)
Definition step_save_tabs : Step :=
  mkStep (Some 1) "btnSave" (Some "Save your work here.") None (Some "tabs").
Definition step_tabs_broken : Step :=
  mkStep (Some 2) "mainTabs" None None (Some "broken_action").

Definition failing_guide_data : GuideData :=
  mkGuideData (Some [step_save_tabs; step_tabs_broken]) None None None.

Definition initial : State Tab := init guide_data "guides" window.
Definition failing_initial : State Tab :=
  init failing_guide_data "guides" window.

(** A host window only 9 units wider than a tooltip dialog, with a small
    widget at its left edge. *)
Definition narrow_window : WidgetGeometry :=
  mkGeometry (mkQPoint 100 100) (mkQSize 300 400).
Definition edge_widget : WidgetGeometry :=
  mkGeometry (mkQPoint 100 110) (mkQSize 20 30).
Definition wide_dialog : QSize := mkQSize 291 120.

(** The window with one more widget, a list of recent files that is still
    empty: a list widget has a length, and an empty one is false. *)
Definition lstRecent : Widget := 4%nat.

Definition window_with_empty_list : World Tab :=
  mkWorld
    [(btnSave, "btnSave"); (mainTabs, "mainTabs");
     (tabSettings, "tabSettings"); (lstRecent, "lstRecent")]
    ∅ (λ w, negb (Nat.eqb w lstRecent)) geometry_of
    (mkGeometry (mkQPoint 100 100) (mkQSize 700 400)) Home.

Definition step_recent : Step :=
  mkStep (Some 1) "lstRecent" (Some "Your recent files.") None None.

Definition recent_guide_data : GuideData :=
  mkGuideData (Some [step_recent; step_tabs]) None None None.

Definition empty_list_initial : State Tab :=
  init recent_guide_data "guides" window_with_empty_list.

(** A configuration of a thousand steps on widgets the window does not
    have, and the room the default recursion limit of 1000 leaves for
    activations of [next_step] under the callback of a button. *)
Definition step_missing : Step :=
  mkStep None "btnMissing" None None None.

Definition missing_guide_data : GuideData :=
  mkGuideData (Some (replicate 1000 step_missing)) None None None.

Definition missing_initial : State Tab :=
  init missing_guide_data "guides" window.

Definition stack_room : nat := 989.

Definition click_start : bool → State Tab → State Tab :=
  start getattr adjustSize os_path_join.
Definition click_next : State Tab → State Tab :=
  next_step_action getattr adjustSize os_path_join.
Definition click_skip : State Tab → State Tab := skip_guide_action.
End Sample.

(** ** [GuidedUI]: loading the configuration

    The host widget class reads the configuration file and builds the
    guide.  What [open] and [json.load] do with a path and a text, and
    [os.path.dirname], belong to the platform.  The loader runs before
    the guide exists, so its log records are kept on their own. *)
Inductive Exc :=
| ExcFileNotFoundError (message : string)
| ExcJSONDecodeError (message : string)
| ExcOther (name message : string).

Inductive OpenResult :=
| Opened (text : string)
| OpenRaises (e : Exc).

(** What [json.load] returns: a configuration of the documented schema, or
    some other value ([[]], a step whose [order] is [null]), on which
    [InteractiveGuide.__init__] raises ([AttributeError], [TypeError]). *)
Inductive Document :=
| Configuration (guide_data : GuideData)
| NotAConfiguration (raised : Exc).

Inductive JsonResult :=
| Loaded (doc : Document)
| LoadRaises (e : Exc).

Inductive LoaderLog :=
| LogError (message : string).

(** [str(e)] *)
Definition exc_message (e : Exc) : string :=
  match e with
  | ExcFileNotFoundError m => m
  | ExcJSONDecodeError m => m
  | ExcOther _ m => m
  end.

(** The [except (FileNotFoundError, json.JSONDecodeError)] clause. *)
Definition caught_by_loader (e : Exc) : bool :=
  match e with
  | ExcFileNotFoundError _ => true
  | ExcJSONDecodeError _ => true
  | ExcOther _ _ => false
  end.

Section Loader.
Context {App : Type}.
Variable open_file : string → OpenResult.
Variable json_load : string → JsonResult.
Variable os_path_dirname : string → string.

(** What the [try] block of [load_guide_config] ends with. *)
Definition try_load (path : string) : JsonResult :=
  match open_file path with
  | Opened text => json_load text
  | OpenRaises e => LoadRaises e
  end.

(** [GuidedUI.load_guide_config]: the records logged, and the document
    returned or the exception raised. *)
Definition load_guide_config (path : string)
    : list LoaderLog * (Exc + Document) :=
  match try_load path with
  | Loaded doc => ([], inr doc)
  | LoadRaises e =>
      if caught_by_loader e then
        ([LogError ("Failed to load guide config: " +:+ exc_message e)],
         inl e)
      else ([], inl e)
  end.

(** [InteractiveGuide(parent, guide_data, images_dir)] on what was
    loaded. *)
Definition new_InteractiveGuide (doc : Document) (dir : string)
    (wd : World App) : Exc + State App :=
  match doc with
  | Configuration guide_data => inr (init guide_data dir wd)
  | NotAConfiguration e => inl e
  end.

(** [GuidedUI.__init__]: the guide of the new widget, unless loading or
    building the guide raised. *)
Definition GuidedUI_init (guide_json_path : string) (wd : World App)
    : list LoaderLog * (Exc + State App) :=
  match load_guide_config guide_json_path with
  | (log, inr doc) =>
      (log, new_InteractiveGuide doc (os_path_dirname guide_json_path) wd)
  | (log, inl e) => (log, inl e)
  end.
End Loader.

(** ** Further notions for the properties of the sequencer *)
Section GuideNotions.
Context {App : Type}.
Variable getattr : string → Attr App.

(** The pre-action of a step that [next_step] calls: a name that is not
    empty and is a callable attribute of the host. *)
Definition called_pre_action (step : Step) : option string :=
  match pre_action step with
  | Some name =>
      if str_truthy name then
        match getattr name with
        | Callable _ => Some name
        | _ => None
        end
      else None
  | None => None
  end.

(** The callbacks called, in order, among the effects of a trace. *)
Definition call_of (e : Event) : option string :=
  match e with
  | EvCall name => Some name
  | _ => None
  end.

Definition calls (tr : list Event) : list string := omap call_of tr.

(** No callback of the host changes a style sheet. *)
Definition callbacks_keep_styles : Prop :=
  ∀ name f (wd : World App) w,
    getattr name = Callable f →
    styleSheet (outcome_world (f wd)) w = styleSheet wd w.
End GuideNotions.

(** The log record of the image of a step, as [show_step_tooltip] writes
    it for images in directory [dir]. *)
Definition image_path_logged (os_path_join : string → string → string)
    (dir : string) (image_filename : string) : Event :=
  EvLog INFO ("Using image path: " +:+ os_path_join dir image_filename).

(** The tooltip dialogs among the effects. *)
Definition is_tooltip_dialog (e : Event) : bool :=
  match e with
  | EvTooltipDialog _ _ _ => true
  | _ => false
  end.

(** The steps of the tooltip dialogs shown, in order. *)
Definition shown_step (e : Event) : option Step :=
  match e with
  | EvTooltipDialog _ step _ => Some step
  | _ => None
  end.

Definition shown_steps (tr : list Event) : list Step := omap shown_step tr.

(** Every tooltip dialog of a step with an image comes with the log record
    of the image's path in directory [dir]. *)
Definition images_from (os_path_join : string → string → string)
    (dir : string) (tr : list Event) : Prop :=
  ∀ w step pos image_filename,
    EvTooltipDialog w step pos ∈ tr →
    image step = Some image_filename →
    str_truthy image_filename = true →
    image_path_logged os_path_join dir image_filename ∈ tr.

(** Moving a widget on the screen. *)
Definition move_by (d : QPoint) (g : WidgetGeometry) : WidgetGeometry :=
  mkGeometry (qpoint_add (global_origin g) d) (widget_size g).

(** [GuidedUI.start_guide] *)
Definition start_guide {App : Type} (getattr : string → Attr App)
    (adjustSize : Step → QSize) (os_path_join : string → string → string)
    (click : bool) (st : State App) : State App :=
  start getattr adjustSize os_path_join click st.

(** ** Files for the sample application *)
Module SampleFiles.
Definition config_path : string := "guides/guide_config.json".

Definition open_file (path : string) : OpenResult :=
  if String.eqb path config_path then Opened "{guide}"
  else if String.eqb path "guides/list.json" then Opened "[]"
  else if String.eqb path "guides/broken.json" then Opened "{"
  else if String.eqb path "guides" then
    OpenRaises (ExcOther "IsADirectoryError" "Is a directory: 'guides'")
  else OpenRaises (ExcFileNotFoundError "No such file or directory").

Definition json_load (text : string) : JsonResult :=
  if String.eqb text "{guide}" then Loaded (Configuration Sample.guide_data)
  else if String.eqb text "[]" then
    Loaded (NotAConfiguration
              (ExcOther "AttributeError"
                 "'list' object has no attribute 'get'"))
  else LoadRaises (ExcJSONDecodeError "Expecting property name").

Definition os_path_dirname (path : string) : string :=
  if String.eqb path config_path then "guides" else "".
End SampleFiles.

(** * Properties *)

(** ** The sort *)
Section SortedFacts.
Context {A : Type} (key : A → Z).

Lemma insert_by_key_Permutation x l : insert_by_key key x l ≡ₚ x :: l.
Proof.
  induction l as [|y ys IH]; simpl; [done|].
  destruct (key x <=? key y); [done|].
  rewrite IH. apply Permutation_swap.
Qed.

Lemma sorted_Permutation l : sorted key l ≡ₚ l.
Proof.
  induction l as [|x l IH]; simpl; [done|].
  by rewrite insert_by_key_Permutation, IH.
Qed.

Lemma insert_by_key_StronglySorted x l :
  StronglySorted (key_le key) l →
  StronglySorted (key_le key) (insert_by_key key x l).
Proof.
  induction 1 as [|y ys Hys IH Hall]; simpl.
  - repeat constructor.
  - destruct (Z.leb_spec (key x) (key y)) as [Hle|Hgt].
    + constructor; [by constructor|].
      constructor; [done|].
      eapply Forall_impl; [exact Hall|].
      unfold key_le; simpl; intros; lia.
    + constructor; [done|].
      rewrite insert_by_key_Permutation.
      constructor; [unfold key_le; lia | done].
Qed.

Lemma sorted_StronglySorted l : StronglySorted (key_le key) (sorted key l).
Proof.
  induction l; simpl; [constructor | by apply insert_by_key_StronglySorted].
Qed.

Lemma sorted_length l : length (sorted key l) = length l.
Proof. apply Permutation_length, sorted_Permutation. Qed.

(** Stability: elements with the same key keep their relative order. *)
Lemma insert_by_key_filter (k : Z) x l :
  StronglySorted (key_le key) l →
  filter (λ y, key y = k) (insert_by_key key x l)
  = filter (λ y, key y = k) (x :: l).
Proof.
  induction 1 as [|y ys Hys IH Hall]; simpl; [done|].
  destruct (Z.leb_spec (key x) (key y)) as [Hle|Hgt]; [done|].
  rewrite !filter_cons in *.
  destruct (decide (key y = k)) as [Hy|Hy].
  - destruct (decide (key x = k)) as [Hx|Hx]; [lia|].
    by rewrite IH.
  - by rewrite IH.
Qed.

Lemma sorted_stable (k : Z) l :
  filter (λ y, key y = k) (sorted key l) = filter (λ y, key y = k) l.
Proof.
  induction l as [|x l IH]; simpl; [done|].
  rewrite insert_by_key_filter by apply sorted_StronglySorted.
  by rewrite !filter_cons, IH.
Qed.
End SortedFacts.

(** ** The tooltip positioner *)

Section Positioner.
Variables (widget parent_widget : WidgetGeometry) (dialog_size : QSize).

Let pos : QPoint :=
  _calculate_tooltip_position widget parent_widget dialog_size.
Let cy : Z := widget_center_y widget.
Let pcy : Z := parent_center_y parent_widget.
Let left : Z := parent_left parent_widget.
Let pw : Z := parent_width parent_widget.
Let dw : Z := width dialog_size.
Let x0 : Z := widget_center_x widget - width dialog_size / 2.

Lemma tooltip_position_y :
  pt_y pos = if cy <? pcy then widget_bottom widget + 10
             else widget_top widget - height dialog_size - 10.
Proof.
  unfold pos, cy, pcy, _calculate_tooltip_position, widget_center_y,
    parent_center_y, widget_bottom, widget_top, mapToGlobal, qpoint_add,
    rect, rect_of_size, center, rect_height, topLeft, bottomLeft; simpl.
  replace (height (widget_size parent_widget) - 1 - 0 + 1)
    with (height (widget_size parent_widget)) by lia.
  rewrite !Z.add_0_l, (Z.add_comm (_ ÷ 2)).
  destruct (_ <? _); lia.
Qed.

Lemma tooltip_position_x :
  pt_x pos = if x0 <? left then left + 10
             else if x0 + dw >? left + pw then left + pw - dw - 10
             else x0.
Proof.
  unfold pos, x0, left, pw, dw, _calculate_tooltip_position,
    widget_center_x, parent_left, parent_width, mapToGlobal, qpoint_add,
    rect, rect_of_size, center, rect_width, topLeft; simpl.
  replace (width (widget_size parent_widget) - 1 - 0 + 1)
    with (width (widget_size parent_widget)) by lia.
  by rewrite !Z.add_0_l, (Z.add_comm (_ ÷ 2)).
Qed.

(** C6. The dialog is placed below the widget, at the widget's bottom edge
    on the screen plus 10, exactly when the widget's centre on the screen
    lies strictly above the centre of the host window; otherwise it is
    placed above the widget, at the widget's top edge minus the dialog
    height minus 10. *)
Theorem tooltip_below_iff_upper_half :
  (widget_center_y widget < parent_center_y parent_widget
   ∧ pt_y (_calculate_tooltip_position widget parent_widget dialog_size)
     = widget_bottom widget + 10)
  ∨ (parent_center_y parent_widget ≤ widget_center_y widget
     ∧ pt_y (_calculate_tooltip_position widget parent_widget dialog_size)
       = widget_top widget - height dialog_size - 10).
Proof.
  fold pos cy pcy. rewrite tooltip_position_y.
  destruct (Z.ltb_spec cy pcy); [left|right]; done.
Qed.

(** With sizes that are not negative the two placements are different
    positions, so the position itself tells the half. *)
Lemma tooltip_below_position_iff :
  0 ≤ height (widget_size widget) → 0 ≤ height dialog_size →
  pt_y (_calculate_tooltip_position widget parent_widget dialog_size)
  = widget_bottom widget + 10
  ↔ widget_center_y widget < parent_center_y parent_widget.
Proof.
  intros Hw Hd. fold pos cy pcy. rewrite tooltip_position_y.
  unfold widget_bottom, widget_top.
  destruct (Z.ltb_spec cy pcy); split; lia.
Qed.

(** C7, as amended. The dialog is centred on the widget when that keeps it
    inside the host; when it would start left of the host it is put 10 units
    inside the host's left edge, and when it would end right of the host it
    is put so as to end 10 units inside the right edge.  When the host is
    at least 10 units wider than the dialog, the dialog never extends
    horizontally outside the host. *)
Theorem tooltip_within_host_when_it_fits :
  pt_x (_calculate_tooltip_position widget parent_widget dialog_size)
  = (let x := widget_center_x widget - width dialog_size / 2 in
     if x <? parent_left parent_widget
     then parent_left parent_widget + 10
     else if x + width dialog_size
             >? parent_left parent_widget + parent_width parent_widget
     then parent_left parent_widget + parent_width parent_widget
          - width dialog_size - 10
     else x)
  ∧ (width dialog_size + 10 ≤ parent_width parent_widget →
     within_host_horizontally parent_widget dialog_size
       (_calculate_tooltip_position widget parent_widget dialog_size)).
Proof.
  pose proof tooltip_position_x as Hx.
  unfold pos, x0, left, pw, dw in Hx. cbv zeta.
  split; [exact Hx|].
  intros Hfit. unfold within_host_horizontally. rewrite Hx. clear Hx.
  set (x := widget_center_x widget - width dialog_size / 2).
  unfold parent_left, parent_width in *.
  destruct (Z.ltb_spec x (pt_x (global_origin parent_widget)));
    [|destruct (Z.gtb_spec (x + width dialog_size)
                 (pt_x (global_origin parent_widget)
                  + width (widget_size parent_widget)))];
    split; lia.
Qed.
End Positioner.


(** ** The step sequencer *)
Section GuideFacts.
Context {App : Type}.
Variable getattr : string → Attr App.
Variable adjustSize : Step → QSize.
Variable os_path_join : string → string → string.

Local Abbreviation State := (State App).
Local Abbreviation body := (next_step_body getattr adjustSize os_path_join).
Local Abbreviation next := (next_step getattr adjustSize os_path_join).
Local Abbreviation fetch := (fetched getattr).
Local Abbreviation tooltip := (show_step_tooltip adjustSize os_path_join).
Local Abbreviation len st := (Z.of_nat (length (steps st))).

(** *** Unfolding and induction for [next_step] *)

Lemma next_step_eq (st : State) :
  next st = match body st with
            | Return st' => st'
            | Recurse st' => next st'
            end.
Proof.
  apply (next_step_elim getattr adjustSize os_path_join
           (λ st r, r = match body st with
                        | Return st' => st'
                        | Recurse st' => next st'
                        end)).
  - intros s s' e _. by rewrite e.
  - intros s s' e _ _. by rewrite e.
Qed.

Lemma next_step_rec (P : State → State → Prop) :
  (∀ st st', body st = Return st' → P st st') →
  (∀ st st1, body st = Recurse st1 → P st1 (next st1) → P st (next st1)) →
  ∀ st, P st (next st).
Proof.
  intros HR HS.
  apply (next_step_elim getattr adjustSize os_path_join P).
  - intros s s' e _. by apply HR.
  - intros s s' e IH _. by apply HS.
Qed.

Lemma next_step_body_spec (st : State) :
  body_spec getattr adjustSize os_path_join st (body st).
Proof.
  unfold next_step_body; simpl.
  destruct (Z.geb_spec (current_step_index st + 1) (len st)) as [Hge|Hlt].
  - by apply body_completed.
  - destruct (py_getitem _ _) as [step|] eqn:Hget.
    + fold (advanced st). fold (fetch step st).
      destruct (findChild _ _) as [w|] eqn:Hfind.
      * by apply body_displayed.
      * by apply body_skipped.
    + by apply body_index_error.
Qed.

(** Each recursive call of [next_step] has one step fewer ahead of it. *)
Lemma next_step_body_decreases (st st' : State) :
  body st = Recurse st' → (remaining st' < remaining st)%nat.
Proof.
  intros Hb. pose proof (next_step_body_spec st) as Hs.
  rewrite Hb in Hs. inversion Hs as [| |step Hlt Hget Hfind|]; subst.
  unfold remaining, fetched, run_pre_action.
  repeat case_match; simpl; lia.
Qed.

(** *** What each building block leaves unchanged *)

Lemma completion_filter_snoc (tr : list Event) e :
  filter (λ e, is_completion_dialog e = true) (tr ++ [e])
  = filter (λ e, is_completion_dialog e = true) tr
    ++ (if is_completion_dialog e then [e] else []).
Proof.
  rewrite filter_app. f_equal. rewrite filter_cons, filter_nil.
  destruct (is_completion_dialog e); by case_decide.
Qed.

Lemma completion_dialogs_emit e (st : State) :
  completion_dialogs (emit e st)
  = completion_dialogs st ++ (if is_completion_dialog e then [e] else []).
Proof. apply completion_filter_snoc. Qed.

Ltac frame_goal :=
  first
    [ done
    | unfold completion_dialogs; simpl; rewrite ?completion_filter_snoc;
      simpl; by rewrite ?app_nil_r
    | simpl; by repeat apply prefix_app_r ].

Lemma run_pre_action_frame step (st : State) :
  let st' := run_pre_action getattr step st in
  steps st' = steps st
  ∧ current_step_index st' = current_step_index st
  ∧ current_widget st' = current_widget st
  ∧ current_widget_original_style st' = current_widget_original_style st
  ∧ open_tooltips st' = open_tooltips st
  ∧ visited st' = visited st
  ∧ overridden st' = overridden st
  ∧ outro_message st' = outro_message st
  ∧ completion_dialogs st' = completion_dialogs st
  ∧ trace st `prefix_of` trace st'.
Proof.
  unfold run_pre_action.
  destruct (pre_action step) as [name|]; [|done].
  destruct (str_truthy name); [|done].
  destruct (getattr name) as [| |f].
  - repeat split; frame_goal.
  - repeat split; frame_goal.
  - simpl. destruct (f _); repeat split; frame_goal.
Qed.

Lemma fetched_frame step (st : State) :
  steps (fetch step st) = steps st
  ∧ current_step_index (fetch step st) = current_step_index st + 1
  ∧ current_widget (fetch step st) = current_widget st
  ∧ current_widget_original_style (fetch step st)
    = current_widget_original_style st
  ∧ open_tooltips (fetch step st) = open_tooltips st
  ∧ visited (fetch step st) = visited st ++ [step]
  ∧ overridden (fetch step st) = overridden st
  ∧ outro_message (fetch step st) = outro_message st
  ∧ completion_dialogs (fetch step st) = completion_dialogs st
  ∧ trace st `prefix_of` trace (fetch step st).
Proof.
  unfold fetched.
  match goal with |- context [run_pre_action getattr step ?s] =>
    pose proof (run_pre_action_frame step s) as Hf end.
  simpl in Hf.
  destruct Hf as (-> & -> & -> & -> & -> & -> & -> & -> & -> & Hp).
  done.
Qed.

Lemma py_getitem_in_range {A} (l : list A) (i : Z) :
  0 ≤ i < Z.of_nat (length l) → py_getitem l i = l !! Z.to_nat i.
Proof.
  intros [H0 Hl]. unfold py_getitem.
  destruct (Z.leb_spec 0 i); [done|lia].
Qed.

Lemma py_getitem_is_Some {A} (l : list A) (i : Z) :
  0 ≤ i < Z.of_nat (length l) → is_Some (py_getitem l i).
Proof.
  intros Hi. rewrite py_getitem_in_range by done.
  apply lookup_lt_is_Some. lia.
Qed.
(** *** Style sheets *)

Lemma styleSheet_setStyleSheet (wd : World App) w s :
  styleSheet (setStyleSheet w s wd) w = s.
Proof. unfold styleSheet; simpl. by rewrite lookup_insert_eq. Qed.

Lemma styleSheet_setStyleSheet_ne (wd : World App) w w' s :
  w ≠ w' → styleSheet (setStyleSheet w s wd) w' = styleSheet wd w'.
Proof. intros Hne. unfold styleSheet; simpl. by rewrite lookup_insert_ne. Qed.

Lemma discharge_head w s l : discharge w s ((w, s) :: l) = l.
Proof. simpl. by rewrite Nat.eqb_refl, String.eqb_refl. Qed.

(** Restoring when a widget and its saved style are on record and the
    widget passes the truth test. *)
Lemma restore_widget_style_Some (st : State) w o :
  current_widget st = Some w →
  current_widget_original_style st = Some o →
  widget_bool (world st) w = true →
  restore_widget_style st
  = set_current None None
      (set_overridden (discharge w o (overridden st))
         (set_world (setStyleSheet w o (world st))
            (emit (EvLog INFO ("Restoring widget style for: "
                               +:+ objectName (world st) w)) st))).
Proof.
  intros Hw Ho Hb. unfold restore_widget_style, has_style_to_restore.
  by rewrite Hw, Ho, Hb.
Qed.

Lemma restore_widget_style_None (st : State) :
  has_style_to_restore st = None →
  restore_widget_style st
  = emit (EvLog WARNING "No widget style to restore.") st.
Proof. intros H. unfold restore_widget_style. by rewrite H. Qed.

Lemma restore_widget_style_frame (st : State) :
  steps (restore_widget_style st) = steps st
  ∧ current_step_index (restore_widget_style st) = current_step_index st
  ∧ open_tooltips (restore_widget_style st) = open_tooltips st
  ∧ visited (restore_widget_style st) = visited st
  ∧ outro_message (restore_widget_style st) = outro_message st
  ∧ completion_dialogs (restore_widget_style st) = completion_dialogs st.
Proof.
  unfold restore_widget_style.
  destruct (has_style_to_restore st) as [[w s]|];
    repeat split; frame_goal.
Qed.

Lemma displayed_frame widget step (st : State) (st' : State) :
  st' = tooltip widget step (highlight_widget widget st) →
  steps st' = steps st
  ∧ current_step_index st' = current_step_index st
  ∧ current_widget st' = Some widget
  ∧ current_widget_original_style st'
    = Some (styleSheet (world st) widget)
  ∧ open_tooltips st' = S (open_tooltips st)
  ∧ visited st' = visited st
  ∧ overridden st' = (widget, styleSheet (world st) widget) :: overridden st
  ∧ outro_message st' = outro_message st
  ∧ completion_dialogs st' = completion_dialogs st
  ∧ trace st `prefix_of` trace st'
  ∧ world st' = setStyleSheet widget HIGHLIGHT_STYLE (world st)
  ∧ ∃ pos, last (trace st') = Some (EvTooltipDialog widget step pos).
Proof.
  intros ->. unfold show_step_tooltip, highlight_widget.
  destruct (image step) as [f|]; [destruct (str_truthy f)|];
    simpl; repeat split; try frame_goal;
    eexists; by rewrite last_snoc.
Qed.

(** *** A call of [next_step] while no tooltip is on screen *)

Lemma next_step_run_inv (st : State) :
  run_inv st → open_tooltips st = O → current_step_index st < len st →
  run_inv (next st)
  ∧ steps (next st) = steps st
  ∧ outro_message (next st) = outro_message st.
Proof.
  apply (next_step_rec (λ st st',
    run_inv st → open_tooltips st = O → current_step_index st < len st →
    run_inv st' ∧ steps st' = steps st
    ∧ outro_message st' = outro_message st)); clear st.
  - intros st st' Hb (Hidx & Hvis & Hcompl & _ & _) Hno Hlt.
    rewrite (proj2 (Z.leb_gt _ _) Hlt) in Hcompl.
    pose proof (next_step_body_spec st) as Hs. rewrite Hb in Hs.
    inversion Hs as [Hge|Hlt' Hget| |step w Hlt' Hget Hfind]; subst; clear Hs.
    + split; [|done]. unfold run_inv; simpl.
      rewrite completion_dialogs_emit; simpl.
      unfold completion_dialogs in *; simpl. rewrite Hcompl, Hno.
      rewrite (proj2 (Z.leb_le _ _) Hge).
      repeat split; try done; try lia.
      rewrite Hvis, !take_ge; [done|lia|lia].
    + destruct (py_getitem_is_Some (steps st) (current_step_index st + 1))
        as [x Hx]; [lia|congruence].
    + pose proof (fetched_frame step st)
        as (Hf1 & Hf2 & Hf3 & Hf4 & Hf5 & Hf6 & Hf7 & Hf8 & Hf9 & _).
      pose proof (displayed_frame w step (fetch step st) _ eq_refl)
        as (Hd1 & Hd2 & Hd3 & Hd4 & Hd5 & Hd6 & Hd7 & Hd8 & Hd9 & _).
      split; [|by rewrite Hd1, Hd8, Hf1, Hf8].
      unfold run_inv. rewrite Hd1, Hd2, Hd5, Hd6, Hd9.
      rewrite Hf1, Hf2, Hf5, Hf6, Hf9, Hno, Hcompl.
      rewrite (proj2 (Z.leb_gt _ _) Hlt').
      rewrite py_getitem_in_range in Hget by lia.
      repeat split; try done; try lia.
      replace (Z.to_nat (current_step_index st + 1 + 1))
        with (S (Z.to_nat (current_step_index st + 1))) by lia.
      by rewrite (take_S_r _ _ _ Hget), Hvis.
  - intros st st1 Hb IH (Hidx & Hvis & Hcompl & _ & _) Hno Hlt.
    rewrite (proj2 (Z.leb_gt _ _) Hlt) in Hcompl.
    pose proof (next_step_body_spec st) as Hs. rewrite Hb in Hs.
    inversion Hs as [| |step Hlt' Hget Hfind|]; subst; clear Hs.
    pose proof (fetched_frame step st)
      as (Hf1 & Hf2 & Hf3 & Hf4 & Hf5 & Hf6 & Hf7 & Hf8 & Hf9 & _).
    rewrite py_getitem_in_range in Hget by lia.
    destruct IH as (IH1 & IH2 & IH3).
    + unfold run_inv; simpl.
      rewrite completion_dialogs_emit; simpl. rewrite app_nil_r.
      rewrite Hf1, Hf2, Hf5, Hf6, Hf9, Hno, Hcompl.
      rewrite (proj2 (Z.leb_gt _ _) Hlt').
      repeat split; try done; try lia.
      replace (Z.to_nat (current_step_index st + 1 + 1))
        with (S (Z.to_nat (current_step_index st + 1))) by lia.
      by rewrite (take_S_r _ _ _ Hget), Hvis.
    + simpl. by rewrite Hf5.
    + simpl. rewrite Hf1, Hf2. lia.
    + simpl in *. by rewrite IH2, IH3, Hf1, Hf8.
Qed.

(** From a guide that holds no widget, [next_step] ends holding the one
    widget of the tooltip it shows, or none. *)
Lemma next_step_held_inv (st : State) :
  held_inv st → open_tooltips st = O → held_inv (next st).
Proof.
  apply (next_step_rec (λ st st',
    held_inv st → open_tooltips st = O → held_inv st')); clear st.
  - intros st st' Hb Hheld Hno. unfold held_inv in Hheld.
    rewrite Hno in Hheld. destruct Hheld as (Hcw & Hcs & Hov).
    pose proof (next_step_body_spec st) as Hs. rewrite Hb in Hs.
    inversion Hs as [Hge|Hlt' Hget| |step w Hlt' Hget Hfind]; subst; clear Hs.
    + unfold held_inv; simpl. by rewrite Hno.
    + unfold held_inv; simpl. by rewrite Hno.
    + pose proof (fetched_frame step st)
        as (_ & _ & _ & _ & Hf5 & _ & Hf7 & _).
      pose proof (displayed_frame w step (fetch step st) _ eq_refl)
        as (_ & _ & Hd3 & Hd4 & Hd5 & _ & Hd7 & _ & _ & _ & Hdw & _).
      unfold held_inv. rewrite Hd5, Hf5, Hno, Hd3, Hd4, Hd7, Hf7, Hov, Hdw.
      eexists _, _. repeat split; try done.
      apply styleSheet_setStyleSheet.
  - intros st st1 Hb IH Hheld Hno. unfold held_inv in Hheld.
    rewrite Hno in Hheld. destruct Hheld as (Hcw & Hcs & Hov).
    pose proof (next_step_body_spec st) as Hs. rewrite Hb in Hs.
    inversion Hs as [| |step Hlt' Hget Hfind|]; subst; clear Hs.
    pose proof (fetched_frame step st)
      as (_ & _ & Hf3 & Hf4 & Hf5 & _ & Hf7 & _).
    apply IH.
    + unfold held_inv; simpl. by rewrite Hf5, Hno, Hf3, Hf4, Hf7.
    + simpl. by rewrite Hf5.
Qed.

(** *** The cursor only moves forward *)

Lemma next_step_index_increases (st : State) :
  current_step_index st < current_step_index (next st).
Proof.
  apply (next_step_rec (λ st st',
    current_step_index st < current_step_index st')); clear st.
  - intros st st' Hb.
    pose proof (next_step_body_spec st) as Hs. rewrite Hb in Hs.
    inversion Hs as [ | | |step w Hlt Hget Hfind]; subst;
      [simpl; lia | simpl; lia | ].
    destruct (displayed_frame w step (fetch step st) _ eq_refl)
      as (_ & -> & _).
    destruct (fetched_frame step st) as (_ & -> & _). lia.
  - intros st st1 Hb IH.
    pose proof (next_step_body_spec st) as Hs. rewrite Hb in Hs.
    inversion Hs as [| |step Hlt Hget Hfind|]; subst.
    simpl in IH. destruct (fetched_frame step st) as (_ & Hi & _).
    rewrite Hi in IH. lia.
Qed.

Lemma restore_widget_style_index (st : State) :
  current_step_index (restore_widget_style st) = current_step_index st.
Proof. unfold restore_widget_style. by repeat case_match. Qed.

(** *** What a call of [next_step] leaves *)

Lemma next_step_outcome (st : State) :
  -1 ≤ current_step_index st →
  current_step_index (next st) ≤ Z.max (current_step_index st + 1) (len st)
  ∧ steps (next st) = steps st
  ∧ (displays_step st (next st) ∨ shows_outro st (next st)).
Proof.
  apply (next_step_rec (λ st st',
    -1 ≤ current_step_index st →
    current_step_index st' ≤ Z.max (current_step_index st + 1) (len st)
    ∧ steps st' = steps st
    ∧ (displays_step st st' ∨ shows_outro st st'))); clear st.
  - intros st st' Hb Hidx.
    pose proof (next_step_body_spec st) as Hs. rewrite Hb in Hs.
    inversion Hs as [Hge|Hlt Hget| |step w Hlt Hget Hfind]; subst; clear Hs.
    + simpl. repeat split; [lia|]. right.
      unfold shows_outro; simpl. by rewrite last_snoc.
    + destruct (py_getitem_is_Some (steps st) (current_step_index st + 1))
        as [x Hx]; [lia|congruence].
    + destruct (fetched_frame step st)
        as (Hf1 & Hf2 & Hf3 & Hf4 & Hf5 & _).
      destruct (displayed_frame w step (fetch step st) _ eq_refl)
        as (Hd1 & Hd2 & Hd3 & Hd4 & Hd5 & _ & _ & _ & _ & _ & _ & pos & Hl).
      rewrite Hd1, Hd2, Hf1, Hf2. repeat split; [lia|]. left.
      exists step, w, pos. rewrite Hd1, Hd2, Hd3, Hd5, Hf1, Hf2, Hf5. done.
  - intros st st1 Hb IH Hidx.
    pose proof (next_step_body_spec st) as Hs. rewrite Hb in Hs.
    inversion Hs as [| |step Hlt Hget Hfind|]; subst; clear Hs.
    destruct (fetched_frame step st) as (Hf1 & Hf2 & _ & _ & Hf5 & _).
    simpl in IH. rewrite Hf1, Hf2 in IH.
    destruct IH as (IH1 & IH2 & IH3); [lia|].
    repeat split; [lia|done|].
    unfold displays_step, shows_outro in *. simpl in IH3.
    rewrite Hf5 in IH3. done.
Qed.

(** *** The invariant of a run *)

Lemma run_inv_emit e (st : State) :
  is_completion_dialog e = false → run_inv st → run_inv (emit e st).
Proof.
  intros He (H1 & H2 & H3 & H4). unfold run_inv.
  rewrite completion_dialogs_emit, He, app_nil_r. done.
Qed.

Lemma run_inv_open (st : State) :
  run_inv st → (0 < open_tooltips st)%nat → open_tooltips st = 1%nat.
Proof. intros (_ & _ & _ & Hle & _) Hpos. lia. Qed.

Lemma run_inv_not_started (st : State) :
  run_inv st → current_step_index st = -1 → open_tooltips st = O.
Proof.
  intros (_ & _ & _ & Hle & Hone) Hi.
  destruct (open_tooltips st) as [|[|n]]; [done| |lia].
  destruct Hone; [done|lia].
Qed.

(** The state in which both buttons of a tooltip leave the guide before
    anything else: the dialog closed and [restore_widget_style] called. *)
Lemma run_inv_closed (st : State) :
  run_inv st →
  open_tooltips st = 1%nat →
  let st' :=
    restore_widget_style (set_open_tooltips (pred (open_tooltips st)) st) in
  run_inv st' ∧ open_tooltips st' = O
  ∧ current_step_index st' = current_step_index st
  ∧ current_step_index st < len st
  ∧ steps st' = steps st ∧ outro_message st' = outro_message st.
Proof.
  intros (H1 & H2 & H3 & H4 & H5) Htip. cbv zeta.
  match goal with |- context [restore_widget_style ?s] =>
    destruct (restore_widget_style_frame s)
      as (Hs & Hi & Ht & Hv & Hm & Hc) end.
  unfold run_inv. rewrite Hs, Hi, Ht, Hv, Hm, Hc.
  unfold completion_dialogs in *. simpl. rewrite Htip. simpl.
  destruct (H5 Htip) as [Hi0 Hlt].
  rewrite (proj2 (Z.leb_gt _ _) Hlt) in *.
  repeat split; try done; try lia.
Qed.

Lemma run_step_inv (st st' : State) :
  run_inv st → run_step getattr adjustSize os_path_join st st' →
  run_inv st' ∧ steps st' = steps st ∧ outro_message st' = outro_message st.
Proof.
  intros Hinv Hstep. destruct Hstep as [click st Hi|st Htip|st Htip].
  - pose proof (run_inv_not_started st Hinv Hi) as Hno.
    unfold start, show_message_dialog.
    match goal with |- context [emit ?e st] =>
      assert (run_inv (emit e st)) as Hinv' by by apply run_inv_emit end.
    destruct click; [|done].
    apply next_step_run_inv in Hinv' as (? & ? & ?); [done|done|].
    simpl. rewrite Hi. lia.
  - pose proof (run_inv_open st Hinv Htip) as Hone.
    destruct (run_inv_closed st Hinv Hone)
      as (Hinv' & Hno & Hi & Hlt & Hs & Hm).
    unfold next_step_action.
    apply next_step_run_inv in Hinv' as (? & ? & ?);
      [|done|rewrite Hi, Hs; lia].
    split; [done|]. split; congruence.
  - pose proof (run_inv_open st Hinv Htip) as Hone.
    destruct (run_inv_closed st Hinv Hone)
      as (Hinv' & Hno & Hi & Hlt & Hs & Hm).
    unfold skip_guide_action. split; [by apply run_inv_emit|done].
Qed.

Lemma init_run_inv guide_data dir (wd : World App) :
  run_inv (init guide_data dir wd).
Proof.
  unfold run_inv, completion_dialogs; simpl.
  rewrite (proj2 (Z.leb_gt _ _)) by lia.
  repeat split; try done; lia.
Qed.

Lemma reachable_inv guide_data dir wd (st : State) :
  reachable getattr adjustSize os_path_join guide_data dir wd st →
  run_inv st
  ∧ steps st = sorted order_key (default [] (cfg_steps guide_data))
  ∧ outro_message st
    = default "Guide completed!" (cfg_outro_message guide_data).
Proof.
  unfold reachable. revert st.
  apply (rtc_ind_r (λ st : State,
    run_inv st
    ∧ steps st = sorted order_key (default [] (cfg_steps guide_data))
    ∧ outro_message st
      = default "Guide completed!" (cfg_outro_message guide_data))).
  - split; [apply init_run_inv|done].
  - intros st1 st2 Hrtc Hstep IH. destruct IH as (Hinv & Hs & Hm).
    destruct (run_step_inv _ _ Hinv Hstep) as (? & ? & ?).
    split; [done|]. split; congruence.
Qed.
(** *** The trace only grows *)

Lemma next_step_trace_prefix (st : State) :
  trace st `prefix_of` trace (next st).
Proof.
  apply (next_step_rec (λ st st', trace st `prefix_of` trace st')); clear st.
  - intros st st' Hb.
    pose proof (next_step_body_spec st) as Hs. rewrite Hb in Hs.
    inversion Hs as [ | | |step w Hlt Hget Hfind]; subst;
      [by apply prefix_app_r | by apply prefix_app_r | ].
    destruct (displayed_frame w step (fetch step st) _ eq_refl)
      as (_ & _ & _ & _ & _ & _ & _ & _ & _ & Hp & _).
    destruct (fetched_frame step st)
      as (_ & _ & _ & _ & _ & _ & _ & _ & _ & Hp').
    by etrans.
  - intros st st1 Hb IH.
    pose proof (next_step_body_spec st) as Hs. rewrite Hb in Hs.
    inversion Hs as [| |step Hlt Hget Hfind|]; subst.
    destruct (fetched_frame step st)
      as (_ & _ & _ & _ & _ & _ & _ & _ & _ & Hp').
    etrans; [exact Hp'|]. etrans; [|exact IH]. by apply prefix_app_r.
Qed.

(** *** Pre-actions *)

Lemma fetched_pre_action_fails (st : State) step name wd warning :
  pre_action step = Some name →
  str_truthy name = true →
  pre_action_fails getattr name (world st) wd warning →
  world (fetch step st) = wd ∧ last (trace (fetch step st)) = Some warning.
Proof.
  intros Hpre Htrue Hfail. unfold fetched, run_pre_action.
  rewrite Hpre, Htrue.
  destruct Hfail as [Hattr|Hattr|f e wd Hattr Hcall]; rewrite Hattr; simpl.
  - by rewrite last_snoc.
  - by rewrite last_snoc.
  - rewrite Hcall. simpl. by rewrite last_snoc.
Qed.

Lemma fetched_pre_action_called (st : State) step name f :
  pre_action step = Some name →
  str_truthy name = true →
  getattr name = Callable f →
  world (fetch step st) = outcome_world (f (world st))
  ∧ trace (fetch step st)
    = trace st
      ++ [EvLog INFO ("Executing pre-action: " +:+ name); EvCall name]
      ++ match f (world st) with
         | Returns _ => []
         | Raises e _ =>
             [EvLog WARNING ("Pre-action '" +:+ name +:+ "' failed: " +:+ e)]
         end.
Proof.
  intros Hpre Htrue Hattr. unfold fetched, run_pre_action.
  rewrite Hpre, Htrue, Hattr. simpl.
  destruct (f (world st)); simpl; by rewrite <- ?app_assoc.
Qed.

(** *** Pressing "Next" until the guide completes *)

Lemma press_next_idle n (st : State) :
  open_tooltips st = O →
  press_next getattr adjustSize os_path_join n st = st.
Proof. intros H. destruct n; simpl; by rewrite ?H. Qed.

Lemma press_next_completes n (st : State) :
  run_inv st → open_tooltips st = 1%nat → (remaining st ≤ n)%nat →
  let st' := press_next getattr adjustSize os_path_join n st in
  rtc (run_step getattr adjustSize os_path_join) st st'
  ∧ len st' ≤ current_step_index st'.
Proof.
  revert st. induction n as [|n IH]; intros st Hinv Hone Hrem.
  - destruct Hinv as (_ & _ & _ & _ & H5). destruct (H5 Hone).
    unfold remaining in Hrem. lia.
  - simpl. rewrite Hone.
    assert (run_step getattr adjustSize os_path_join st
              (next_step_action getattr adjustSize os_path_join st))
      as Hstep by (apply run_next; lia).
    destruct (run_step_inv _ _ Hinv Hstep) as (Hinv' & Hs & _).
    pose proof Hinv as (_ & _ & _ & _ & H5). destruct (H5 Hone) as [Hi0 _].
    destruct (run_inv_closed st Hinv Hone) as (_ & Hno & Hci & _ & Hcs & _).
    unfold next_step_action in *.
    set (st0 := restore_widget_style
                  (set_open_tooltips (pred (open_tooltips st)) st)) in *.
    pose proof (next_step_index_increases st0) as Hinc.
    destruct (next_step_outcome st0) as (_ & _ & [Hd|Ho']); [lia| |].
    + destruct Hd as (? & ? & ? & _ & _ & _ & _ & Htip).
      rewrite Hno in Htip.
      destruct (IH _ Hinv' Htip) as (Hrtc & Hdone).
      { unfold remaining in *. rewrite Hs. lia. }
      split; [by eapply rtc_l|done].
    + destruct Ho' as (Hdone & _ & Htip). rewrite Hno in Htip.
      rewrite press_next_idle by done.
      split; [by apply rtc_once|done].
Qed.

(** *** The invariant of the orderly uses *)

Lemma held_inv_emit e (st : State) : held_inv st → held_inv (emit e st).
Proof. done. Qed.

Lemma orderly_held_inv guide_data dir wd (st : State) :
  orderly getattr adjustSize os_path_join guide_data dir wd st →
  held_inv st.
Proof.
  unfold orderly. revert st. apply (rtc_ind_r (λ st : State, held_inv st)).
  - done.
  - intros st st' _ Hstep Hheld.
    destruct Hstep as [click st Hno|st Htip Htrue|st Htip Htrue].
    + unfold start, show_message_dialog. destruct click; [|done].
      by apply next_step_held_inv.
    + unfold held_inv in Hheld.
      destruct (open_tooltips st) as [|[|n]] eqn:Hopen; [lia| |done].
      destruct Hheld as (w & o & Hw & Ho & Hov & _).
      unfold next_step_action. rewrite Hopen.
      rewrite (restore_widget_style_Some _ w o) by auto.
      apply next_step_held_inv; [|done].
      unfold held_inv; simpl. by rewrite Hov, discharge_head.
    + unfold held_inv in Hheld.
      destruct (open_tooltips st) as [|[|n]] eqn:Hopen; [lia| |done].
      destruct Hheld as (w & o & Hw & Ho & Hov & _).
      unfold skip_guide_action. rewrite Hopen.
      rewrite (restore_widget_style_Some _ w o) by auto.
      unfold held_inv; simpl. by rewrite Hov, discharge_head.
Qed.

(** *** [next_step] on a stack of bounded depth *)

Lemma next_step_body_Return_index (st st' : State) :
  body st = Return st' → current_step_index st' = current_step_index st + 1.
Proof.
  intros Hb. pose proof (next_step_body_spec st) as Hs. rewrite Hb in Hs.
  inversion Hs as [ | | |step w Hlt Hget Hfind]; subst; [done|done|].
  destruct (displayed_frame w step (fetch step st) _ eq_refl)
    as (_ & -> & _).
  by destruct (fetched_frame step st) as (_ & -> & _).
Qed.

Lemma next_step_body_Recurse_frame (st st' : State) :
  body st = Recurse st' →
  current_step_index st' = current_step_index st + 1
  ∧ steps st' = steps st
  ∧ open_tooltips st' = open_tooltips st
  ∧ completion_dialogs st' = completion_dialogs st.
Proof.
  intros Hb. pose proof (next_step_body_spec st) as Hs. rewrite Hb in Hs.
  inversion Hs as [| |step Hlt Hget Hfind|]; subst.
  destruct (fetched_frame step st)
    as (Hf1 & Hf2 & _ & _ & Hf5 & _ & _ & _ & Hf9 & _).
  rewrite completion_dialogs_emit. simpl. by rewrite app_nil_r.
Qed.

(** The activations a call needs are as many as the cursor moves; with
    room for them the call does what [next_step] does. *)
Lemma next_step_on_stack_enough depth (st : State) :
  current_step_index (next st) - current_step_index st ≤ Z.of_nat depth →
  next_step_on_stack getattr adjustSize os_path_join depth st
  = Returned (next st).
Proof.
  revert st. induction depth as [|depth IH]; intros st Hroom.
  - pose proof (next_step_index_increases st). lia.
  - simpl. rewrite (next_step_eq st) in *.
    destruct (body st) as [st'|st'] eqn:Hb; [done|].
    apply IH.
    destruct (next_step_body_Recurse_frame st st' Hb) as (-> & _). lia.
Qed.

(** With less room the call ends in a [RecursionError]: the cursor has
    moved by one more than there was room, and no dialog was shown. *)
Lemma next_step_on_stack_short depth (st : State) :
  Z.of_nat depth < current_step_index (next st) - current_step_index st →
  ∃ st',
    next_step_on_stack getattr adjustSize os_path_join depth st
    = RecursionError st'
    ∧ current_step_index st' = current_step_index st + Z.of_nat depth + 1
    ∧ open_tooltips st' = open_tooltips st
    ∧ completion_dialogs st' = completion_dialogs st.
Proof.
  revert st. induction depth as [|depth IH]; intros st Hroom.
  - eexists. split; [done|]. simpl. repeat split; lia.
  - simpl. rewrite (next_step_eq st) in Hroom.
    destruct (body st) as [st'|st'] eqn:Hb.
    + rewrite (next_step_body_Return_index st st' Hb) in Hroom. lia.
    + destruct (next_step_body_Recurse_frame st st' Hb)
        as (Hi & _ & Ht & Hc).
      destruct (IH st') as (st'' & Hrun & Hi' & Ht' & Hc'); [lia|].
      exists st''. split; [done|]. rewrite Hi', Ht', Hc', Hi, Ht, Hc.
      repeat split; lia.
Qed.

(** *** The properties of the specification *)

(** C1. In every run of every configuration the guide's step list is the
    configured list sorted ascending by the [order] field of the steps (0
    when absent): a permutation of the configured steps in which no step
    comes before one of smaller [order].  The steps fetched so far are that
    list up to the cursor, and so the sequence of visited steps has
    non-decreasing [order] values. *)
Theorem steps_visited_in_order guide_data dir wd (st : State) :
  reachable getattr adjustSize os_path_join guide_data dir wd st →
  steps st = sorted order_key (default [] (cfg_steps guide_data))
  ∧ steps st ≡ₚ default [] (cfg_steps guide_data)
  ∧ StronglySorted (key_le order_key) (steps st)
  ∧ visited st = take (Z.to_nat (current_step_index st + 1)) (steps st)
  ∧ StronglySorted (key_le order_key) (visited st)
  ∧ StronglySorted in_order (steps st)
  ∧ StronglySorted in_order (visited st).
Proof.
  intros Hreach.
  destruct (reachable_inv _ _ _ _ Hreach) as ((_ & Hvis & _) & Hs & _).
  assert (StronglySorted (key_le order_key) (steps st)) as Hsorted
    by (rewrite Hs; apply sorted_StronglySorted).
  assert (StronglySorted (key_le order_key) (visited st)) as Hvisited.
  { rewrite Hvis. eapply StronglySorted_app_1_l. by rewrite take_drop. }
  assert (∀ l, StronglySorted (key_le order_key) l →
               StronglySorted in_order l) as Hfield.
  { intros l Hl. induction Hl as [|x l Hl IH Hall]; constructor; [done|].
    eapply Forall_impl; [exact Hall|].
    intros y Hxy. unfold key_le, order_key, in_order, order_of in *.
    by destruct (order x), (order y). }
  repeat split; try done; [|by apply Hfield..].
  rewrite Hs. apply sorted_Permutation.
Qed.

(** C2. In a run, the completion dialog with the outro message has been
    shown exactly once when the cursor is past the last step and not at
    all before; once it is shown no control of the guide remains enabled;
    and pressing "Next" on each tooltip in turn does lead there. *)
Theorem outro_shown_exactly_once guide_data dir wd (st : State) :
  reachable getattr adjustSize os_path_join guide_data dir wd st →
  completion_dialogs st
  = (if len st <=? current_step_index st then [outro_dialog st] else [])
  ∧ outro_message st
    = default "Guide completed!" (cfg_outro_message guide_data)
  ∧ (len st ≤ current_step_index st →
     ∀ st', ¬ run_step getattr adjustSize os_path_join st st')
  ∧ (open_tooltips st = 1%nat →
     let st' :=
       press_next getattr adjustSize os_path_join (remaining st) st in
     reachable getattr adjustSize os_path_join guide_data dir wd st'
     ∧ len st' ≤ current_step_index st'
     ∧ completion_dialogs st' = [outro_dialog st']).
Proof.
  intros Hreach.
  destruct (reachable_inv _ _ _ _ Hreach) as (Hinv & Hs & Hm).
  pose proof Hinv as (Hidx & _ & Hcompl & Hle & Hone).
  repeat split; try done.
  - intros Hdone st' Hstep.
    destruct Hstep as [click st Hi|st Hopen|st Hopen].
    + lia.
    + destruct Hone; lia.
    + destruct Hone; lia.
  - destruct (press_next_completes (remaining st) st Hinv H) as (Hrtc & _);
      [done|].
    unfold reachable in *. by etrans.
  - by destruct (press_next_completes (remaining st) st Hinv H) as (_ & Hd).
  - destruct (press_next_completes (remaining st) st Hinv H) as (Hrtc & Hd);
      [done|].
    assert (reachable getattr adjustSize os_path_join guide_data dir wd
              (press_next getattr adjustSize os_path_join (remaining st) st))
      as Hreach' by (unfold reachable in *; by etrans).
    destruct (reachable_inv _ _ _ _ Hreach') as ((_ & _ & Hc & _) & _).
    rewrite Hc. by rewrite (proj2 (Z.leb_le _ _) Hd).
Qed.

(** On a stack with room for all its activations, and started with the
    cursor at -1 or later, [next_step] returns for every step list and
    every assignment of present and missing widgets: the cursor has moved
    forward, by one for the call and by one more for each missing widget
    skipped, never beyond the end of the list, and what the call leaves is
    a step on display or the completion dialog. *)
Lemma next_step_reaches_step_or_outro (st : State) :
  -1 ≤ current_step_index st →
  current_step_index st < current_step_index (next st)
  ∧ current_step_index (next st) ≤ Z.max (current_step_index st + 1) (len st)
  ∧ (displays_step st (next st) ∨ shows_outro st (next st)).
Proof.
  intros Hidx. split; [apply next_step_index_increases|].
  destruct (next_step_outcome st Hidx) as (? & _ & ?). done.
Qed.

(** C3, as amended. [next_step] makes one activation for the call and one
    more for each missing widget it skips, as many as the cursor moves.
    When the stack has room for them, the call returns: skipping does not
    block progress, the cursor has moved forward and never beyond the end
    of the list, and what the call leaves is a step on display or the
    completion dialog. *)
Theorem next_step_on_stack_reaches_step_or_outro depth (st : State) :
  -1 ≤ current_step_index st →
  current_step_index (next st) - current_step_index st ≤ Z.of_nat depth →
  next_step_on_stack getattr adjustSize os_path_join depth st
  = Returned (next st)
  ∧ gets_somewhere getattr adjustSize os_path_join depth st
  ∧ current_step_index st < current_step_index (next st)
  ∧ current_step_index (next st) ≤ Z.max (current_step_index st + 1) (len st)
  ∧ (displays_step st (next st) ∨ shows_outro st (next st)).
Proof.
  intros Hidx Hroom.
  pose proof (next_step_on_stack_enough depth st Hroom) as Hrun.
  destruct (next_step_reaches_step_or_outro st Hidx) as (Hinc & Hmax & Hout).
  repeat split; try done. by exists (next st).
Qed.

(** C8. [current_step_index] is -1 when the guide is created, and no
    operation of the guide decreases it: [next_step] and the "Next" action
    increase it, [start] increases it or leaves it, the "Skip" action and
    [restore_widget_style] leave it unchanged. *)
Theorem current_step_index_never_decreases :
  (∀ guide_data dir (wd : World App),
     current_step_index (init guide_data dir wd) = -1)
  ∧ ∀ st : State,
      (∀ click,
         current_step_index st
         ≤ current_step_index (start getattr adjustSize os_path_join click st))
      ∧ current_step_index st < current_step_index (next st)
      ∧ current_step_index st
        < current_step_index
            (next_step_action getattr adjustSize os_path_join st)
      ∧ current_step_index (skip_guide_action st) = current_step_index st
      ∧ current_step_index (restore_widget_style st) = current_step_index st.
Proof.
  split; [done|]. intros st. repeat split.
  - intros [|]; unfold start, show_message_dialog; [|done].
    match goal with |- context [next ?s] =>
      pose proof (next_step_index_increases s) end.
    simpl in *. lia.
  - apply next_step_index_increases.
  - unfold next_step_action.
    match goal with |- context [next ?s] =>
      pose proof (next_step_index_increases s) as Hinc end.
    rewrite restore_widget_style_index in Hinc. done.
  - unfold skip_guide_action. simpl. by rewrite restore_widget_style_index.
  - apply restore_widget_style_index.
Qed.

(** C9, as amended. When [start] is called only while no tooltip is on
    screen, and the buttons of a tooltip are pressed while the widget held
    is true in a truth test, at most one style override is outstanding in
    every state.  The widget it belongs to carries the highlight style, and
    that widget and the style saved for it are the ones the guide holds, so
    both buttons of the tooltip undo it: the "Next" action has restored the
    saved style and holds no override when it calls [next_step], and the
    "Skip" action ends with the saved style restored and no override
    left. *)
Theorem at_most_one_widget_highlighted guide_data dir wd (st : State) :
  orderly getattr adjustSize os_path_join guide_data dir wd st →
  (length (overridden st) ≤ 1)%nat
  ∧ ∀ w o, (w, o) ∈ overridden st →
      current_widget st = Some w
      ∧ current_widget_original_style st = Some o
      ∧ styleSheet (world st) w = HIGHLIGHT_STYLE
      ∧ open_tooltips st = 1%nat
      ∧ (widget_bool (world st) w = true →
         (let st' :=
            restore_widget_style
              (set_open_tooltips (pred (open_tooltips st)) st) in
          next_step_action getattr adjustSize os_path_join st = next st'
          ∧ overridden st' = []
          ∧ styleSheet (world st') w = o)
         ∧ overridden (skip_guide_action st) = []
         ∧ styleSheet (world (skip_guide_action st)) w = o).
Proof.
  intros Hrun. pose proof (orderly_held_inv _ _ _ _ Hrun) as Hheld.
  unfold held_inv in Hheld.
  destruct (open_tooltips st) as [|[|n]] eqn:Hopen; [| |done].
  - destruct Hheld as (_ & _ & ->). split; [simpl; lia|].
    intros w o Hin. by apply elem_of_nil in Hin.
  - destruct Hheld as (w & o & Hw & Ho & Hov & Hsty). rewrite Hov.
    split; [simpl; lia|].
    intros w' o' Hin. apply list_elem_of_singleton in Hin as [= -> ->].
    repeat split; try done.
    + unfold next_step_action. by rewrite Hopen.
    + rewrite (restore_widget_style_Some _ w o) by done. simpl.
      by rewrite Hov, discharge_head.
    + rewrite (restore_widget_style_Some _ w o) by done. simpl.
      apply styleSheet_setStyleSheet.
    + unfold skip_guide_action. rewrite Hopen.
      rewrite (restore_widget_style_Some _ w o) by done. simpl.
      by rewrite Hov, discharge_head.
    + unfold skip_guide_action. rewrite Hopen.
      rewrite (restore_widget_style_Some _ w o) by done. simpl.
      apply styleSheet_setStyleSheet.
Qed.

(** [next_step] at a step that exists: the pre-action block, then the
    lookup of the widget decides between display and skip. *)
Lemma next_step_at_step (st : State) step :
  py_getitem (steps st) (current_step_index st + 1) = Some step →
  current_step_index st + 1 < len st →
  next st
  = match findChild (world (fetch step st)) (object_name step) with
    | Some w => tooltip w step (highlight_widget w (fetch step st))
    | None => next (emit (widget_not_found step) (fetch step st))
    end.
Proof.
  intros Hget Hlt. rewrite next_step_eq at 1.
  unfold next_step_body; simpl.
  destruct (Z.geb_spec (current_step_index st + 1) (len st)); [lia|].
  rewrite Hget. fold (advanced st). fold (fetch step st).
  by destruct (findChild _ _).
Qed.

(** C4, as amended. When the pre-action of the step under the cursor fails
    (its name has no callable attribute on the host, or the call raises), a
    warning is logged and the tour does not halt.  The step itself is not
    abandoned: its widget is looked up as usual, and the step is displayed
    when the widget is found; only a missing widget makes the sequencer
    skip it. *)
Theorem failing_pre_action_keeps_step (st : State) step name wd warning :
  -1 ≤ current_step_index st →
  py_getitem (steps st) (current_step_index st + 1) = Some step →
  current_step_index st + 1 < len st →
  pre_action step = Some name →
  str_truthy name = true →
  pre_action_fails getattr name (world st) wd warning →
  warning ∈ trace (next st)
  ∧ (displays_step st (next st) ∨ shows_outro st (next st))
  ∧ match findChild wd (object_name step) with
    | Some w =>
        current_step_index (next st) = current_step_index st + 1
        ∧ current_widget (next st) = Some w
        ∧ open_tooltips (next st) = S (open_tooltips st)
        ∧ ∃ pos, last (trace (next st)) = Some (EvTooltipDialog w step pos)
    | None =>
        next st = next (emit (widget_not_found step) (fetch step st))
        ∧ current_step_index st + 1 < current_step_index (next st)
    end.
Proof.
  intros Hidx Hget Hlt Hpre Htrue Hfail.
  destruct (fetched_pre_action_fails st step name wd warning Hpre Htrue Hfail)
    as (Hworld & Hlast).
  destruct (fetched_frame step st)
    as (Hf1 & Hf2 & Hf3 & Hf4 & Hf5 & _).
  assert (warning ∈ trace (fetch step st)) as Hin.
  { apply last_Some in Hlast as [l' ->]. set_solver. }
  rewrite (next_step_at_step st step Hget Hlt), Hworld.
  split; [|split].
  - destruct (findChild wd (object_name step)) as [w|].
    + destruct (displayed_frame w step (fetch step st) _ eq_refl)
        as (_ & _ & _ & _ & _ & _ & _ & _ & _ & Hp & _).
      by eapply elem_of_prefix.
    + eapply elem_of_prefix; [|apply next_step_trace_prefix].
      simpl. set_solver.
  - pose proof (next_step_outcome st Hidx) as (_ & _ & Hout).
    by rewrite (next_step_at_step st step Hget Hlt), Hworld in Hout.
  - destruct (findChild wd (object_name step)) as [w|].
    + destruct (displayed_frame w step (fetch step st) _ eq_refl)
        as (_ & -> & -> & _ & -> & _ & _ & _ & _ & _ & _ & pos & Hl).
      rewrite Hf2, Hf5. repeat split; try done. by exists pos.
    + split; [done|].
      match goal with |- context [next ?s] =>
        pose proof (next_step_index_increases s) as Hinc end.
      simpl in Hinc. by rewrite Hf2 in Hinc.
Qed.

(** The round trip of highlight and restore, for a widget that is true in
    a truth test: highlighting saves its style sheet and overrides it;
    restoring right after puts the saved value back, so the widget's style,
    and every other widget's, is what it was before the highlight, and the
    guide holds no widget any more. *)
Lemma highlight_restore_round_trip (st : State) (w : Widget) :
  widget_bool (world st) w = true →
  current_widget (highlight_widget w st) = Some w
  ∧ current_widget_original_style (highlight_widget w st)
    = Some (styleSheet (world st) w)
  ∧ styleSheet (world (highlight_widget w st)) w = HIGHLIGHT_STYLE
  ∧ styleSheet (world (restore_widget_style (highlight_widget w st))) w
    = styleSheet (world st) w
  ∧ (∀ w',
       styleSheet (world (restore_widget_style (highlight_widget w st))) w'
       = styleSheet (world st) w')
  ∧ current_widget (restore_widget_style (highlight_widget w st)) = None
  ∧ current_widget_original_style
      (restore_widget_style (highlight_widget w st)) = None.
Proof.
  intros Htrue.
  pose proof (restore_widget_style_Some (highlight_widget w st) w
                (styleSheet (world st) w) eq_refl eq_refl Htrue) as Hr.
  assert (∀ w',
    styleSheet (world (restore_widget_style (highlight_widget w st))) w'
    = styleSheet (world st) w') as Hall.
  { intros w'. rewrite Hr. unfold highlight_widget; simpl.
    destruct (decide (w = w')) as [<-|Hne].
    - by rewrite styleSheet_setStyleSheet.
    - by rewrite !styleSheet_setStyleSheet_ne. }
  repeat split; try done; try (by rewrite Hr).
  unfold highlight_widget; simpl. by rewrite styleSheet_setStyleSheet.
Qed.

(** C5. [restore_widget_style] puts the widget it holds to a truth test
    ([if self.current_widget and ...]) where it means to ask whether there is
    one.  For a widget that is false in a truth test, an empty list widget,
    combo box or tab widget, the pair is not a round trip: highlighting saves
    the style sheet and overrides it, and the restore right after only logs
    that there is no style to restore.  The widget keeps the highlight
    style, and the guide keeps holding it and the saved style. *)
Theorem restore_skips_widget_false_in_truth_test (st : State) (w : Widget) :
  widget_bool (world st) w = false →
  let st' := restore_widget_style (highlight_widget w st) in
  st' = emit (EvLog WARNING "No widget style to restore.")
          (highlight_widget w st)
  ∧ styleSheet (world st') w = HIGHLIGHT_STYLE
  ∧ current_widget st' = Some w
  ∧ current_widget_original_style st' = Some (styleSheet (world st) w)
  ∧ overridden st' = (w, styleSheet (world st) w) :: overridden st.
Proof.
  intros Hfalse st'.
  assert (st' = emit (EvLog WARNING "No widget style to restore.")
                  (highlight_widget w st)) as ->.
  { subst st'. apply restore_widget_style_None.
    unfold has_style_to_restore, highlight_widget; simpl.
    by rewrite Hfalse. }
  repeat split. unfold highlight_widget; simpl.
  by rewrite styleSheet_setStyleSheet.
Qed.

(** C10. The pre-action of a step runs before its widget is looked up.
    When the pre-action is callable and the widget is missing once it has
    run, the call has happened and the host is as the callback left it,
    while the step is skipped: [next_step] goes on from the next step with
    no tooltip shown and no widget highlighted for this one. *)
Theorem pre_action_runs_before_widget_lookup (st : State) step name f :
  py_getitem (steps st) (current_step_index st + 1) = Some step →
  current_step_index st + 1 < len st →
  pre_action step = Some name →
  str_truthy name = true →
  getattr name = Callable f →
  findChild (outcome_world (f (world st))) (object_name step) = None →
  let st1 := emit (widget_not_found step) (fetch step st) in
  next st = next st1
  ∧ world st1 = outcome_world (f (world st))
  ∧ trace st1
    = trace st
      ++ [EvLog INFO ("Executing pre-action: " +:+ name); EvCall name]
      ++ match f (world st) with
         | Returns _ => []
         | Raises e _ =>
             [EvLog WARNING ("Pre-action '" +:+ name +:+ "' failed: " +:+ e)]
         end
      ++ [widget_not_found step]
  ∧ current_step_index st1 = current_step_index st + 1
  ∧ open_tooltips st1 = open_tooltips st
  ∧ current_widget st1 = current_widget st
  ∧ overridden st1 = overridden st.
Proof.
  intros Hget Hlt Hpre Htrue Hattr Hfind st1.
  destruct (fetched_pre_action_called st step name f Hpre Htrue Hattr)
    as (Hworld & Htrace).
  destruct (fetched_frame step st)
    as (Hf1 & Hf2 & Hf3 & Hf4 & Hf5 & Hf6 & Hf7 & _).
  subst st1. simpl. rewrite Htrace, <- !app_assoc.
  repeat split; try done.
  by rewrite (next_step_at_step st step Hget Hlt), Hworld, Hfind.
Qed.

(** *** Building runs *)

Lemma reachable_start guide_data dir (wd : World App) click :
  reachable getattr adjustSize os_path_join guide_data dir wd
    (start getattr adjustSize os_path_join click (init guide_data dir wd)).
Proof. apply rtc_once. by apply run_start. Qed.

Lemma reachable_next guide_data dir wd (st : State) :
  reachable getattr adjustSize os_path_join guide_data dir wd st →
  (0 <? open_tooltips st)%nat = true →
  reachable getattr adjustSize os_path_join guide_data dir wd
    (next_step_action getattr adjustSize os_path_join st).
Proof.
  intros Hreach Hopen. eapply rtc_r; [exact Hreach|].
  apply run_next. by apply Nat.ltb_lt.
Qed.

Lemma reachable_skip guide_data dir wd (st : State) :
  reachable getattr adjustSize os_path_join guide_data dir wd st →
  (0 <? open_tooltips st)%nat = true →
  reachable getattr adjustSize os_path_join guide_data dir wd
    (skip_guide_action st).
Proof.
  intros Hreach Hopen. eapply rtc_r; [exact Hreach|].
  apply run_skip. by apply Nat.ltb_lt.
Qed.

Lemma orderly_start_first guide_data dir (wd : World App) click :
  orderly getattr adjustSize os_path_join guide_data dir wd
    (start getattr adjustSize os_path_join click (init guide_data dir wd)).
Proof. apply rtc_once. by apply orderly_start. Qed.

Lemma orderly_press_next guide_data dir wd (st : State) :
  orderly getattr adjustSize os_path_join guide_data dir wd st →
  (0 <? open_tooltips st)%nat = true →
  held_widget_true st →
  orderly getattr adjustSize os_path_join guide_data dir wd
    (next_step_action getattr adjustSize os_path_join st).
Proof.
  intros Hrun Hopen Htrue. eapply rtc_r; [exact Hrun|].
  apply orderly_next; [by apply Nat.ltb_lt|done].
Qed.
End GuideFacts.

(** ** The properties on the sample application *)

Lemma sample_started_reachable :
  reachable Sample.getattr Sample.adjustSize Sample.os_path_join
    Sample.guide_data "guides" Sample.window
    (Sample.click_start true Sample.initial).
Proof. apply reachable_start. Qed.

Lemma sample_second_step_reachable :
  reachable Sample.getattr Sample.adjustSize Sample.os_path_join
    Sample.guide_data "guides" Sample.window
    (Sample.click_next (Sample.click_start true Sample.initial)).
Proof.
  apply reachable_next; [apply sample_started_reachable|].
  vm_compute. reflexivity.
Qed.

Lemma steps_visited_in_order_witness :
  StronglySorted in_order
    (visited (Sample.click_next (Sample.click_start true Sample.initial)))
  ∧ map order
      (visited (Sample.click_next (Sample.click_start true Sample.initial)))
    = [None; Some 1; Some 2].
Proof.
  split; [|reflexivity].
  exact (proj2 (proj2 (proj2 (proj2 (proj2 (proj2
           (steps_visited_in_order Sample.getattr Sample.adjustSize
              Sample.os_path_join Sample.guide_data "guides" Sample.window
              _ sample_second_step_reachable))))))).
Defined.

Lemma sample_completed_reachable :
  reachable Sample.getattr Sample.adjustSize Sample.os_path_join
    Sample.guide_data "guides" Sample.window
    (Sample.click_next (Sample.click_next
       (Sample.click_next (Sample.click_start true Sample.initial)))).
Proof.
  apply reachable_next;
    [apply reachable_next; [apply sample_second_step_reachable|]|];
    vm_compute; reflexivity.
Qed.

Lemma outro_shown_exactly_once_witness :
  completion_dialogs
    (Sample.click_next (Sample.click_next
       (Sample.click_next (Sample.click_start true Sample.initial))))
  = [EvMessageDialog "Guide Completed" "All done." "Close"].
Proof.
  exact (proj1
           (outro_shown_exactly_once Sample.getattr Sample.adjustSize
              Sample.os_path_join Sample.guide_data "guides" Sample.window
              _ sample_completed_reachable)).
Defined.

Lemma next_step_on_stack_reaches_step_or_outro_witness :
  next_step_on_stack Sample.getattr Sample.adjustSize Sample.os_path_join 2
    Sample.initial
  = Returned
      (next_step Sample.getattr Sample.adjustSize Sample.os_path_join
         Sample.initial)
  ∧ gets_somewhere Sample.getattr Sample.adjustSize Sample.os_path_join 2
      Sample.initial.
Proof.
  pose proof (next_step_on_stack_reaches_step_or_outro Sample.getattr
                Sample.adjustSize Sample.os_path_join 2 Sample.initial) as H.
  destruct H as (Hrun & Hgets & _).
  - simpl. lia.
  - vm_compute. discriminate.
  - split; [exact Hrun|exact Hgets].
Defined.

(** C3 as stated fails: with a thousand steps on widgets the window does
    not have, [next_step] needs 1001 activations to get to the completion
    dialog.  On a stack with room for 989 the call ends in a
    [RecursionError]: the cursor is at 989, the 989 steps before it were
    logged as skipped, and neither a tooltip nor the completion dialog has
    been shown. *)
Lemma next_step_runs_out_of_stack :
  match next_step_on_stack Sample.getattr Sample.adjustSize
          Sample.os_path_join Sample.stack_room Sample.missing_initial with
  | RecursionError st =>
      current_step_index st = 989
      ∧ trace st = replicate 989 (widget_not_found Sample.step_missing)
      ∧ open_tooltips st = O
      ∧ completion_dialogs st = []
  | Returned _ => False
  end
  ∧ ¬ gets_somewhere Sample.getattr Sample.adjustSize Sample.os_path_join
        Sample.stack_room Sample.missing_initial.
Proof.
  assert (match next_step_on_stack Sample.getattr Sample.adjustSize
                  Sample.os_path_join Sample.stack_room
                  Sample.missing_initial with
          | RecursionError st =>
              current_step_index st = 989
              ∧ trace st = replicate 989 (widget_not_found Sample.step_missing)
              ∧ open_tooltips st = O
              ∧ completion_dialogs st = []
          | Returned _ => False
          end) as Hrun by (vm_compute; done).
  split; [exact Hrun|].
  intros (st' & Hret & _). by rewrite Hret in Hrun.
Qed.

Lemma sample_second_step_orderly :
  orderly Sample.getattr Sample.adjustSize Sample.os_path_join
    Sample.guide_data "guides" Sample.window
    (Sample.click_next (Sample.click_start true Sample.initial)).
Proof.
  apply orderly_press_next; [apply orderly_start_first| |].
  - vm_compute. reflexivity.
  - intros w _. reflexivity.
Qed.

Lemma at_most_one_widget_highlighted_witness :
  (length (overridden
             (Sample.click_next (Sample.click_start true Sample.initial)))
   ≤ 1)%nat.
Proof.
  exact (proj1
           (at_most_one_widget_highlighted Sample.getattr Sample.adjustSize
              Sample.os_path_join Sample.guide_data "guides" Sample.window
              _ sample_second_step_orderly)).
Defined.

(** C9 as stated fails: [start] has no guard and the tooltip does not
    block the host, so [start] can be called while a tooltip is on screen.
    Called twice on the sample, it leaves the save button and the tab
    widget highlighted at once, with two overrides outstanding and only the
    later one held by the guide. *)
Lemma second_start_highlights_two_widgets :
  rtc (user_step Sample.getattr Sample.adjustSize Sample.os_path_join)
    Sample.initial
    (Sample.click_start true (Sample.click_start true Sample.initial))
  ∧ styleSheet
      (world (Sample.click_start true (Sample.click_start true Sample.initial)))
      Sample.btnSave = HIGHLIGHT_STYLE
  ∧ styleSheet
      (world (Sample.click_start true (Sample.click_start true Sample.initial)))
      Sample.mainTabs = HIGHLIGHT_STYLE
  ∧ overridden
      (Sample.click_start true (Sample.click_start true Sample.initial))
    = [(Sample.mainTabs, ""); (Sample.btnSave, "")]
  ∧ current_widget
      (Sample.click_start true (Sample.click_start true Sample.initial))
    = Some Sample.mainTabs
  ∧ ¬ (∀ st,
         rtc (user_step Sample.getattr Sample.adjustSize Sample.os_path_join)
           Sample.initial st →
         (length (overridden st) ≤ 1)%nat).
Proof.
  assert (rtc (user_step Sample.getattr Sample.adjustSize Sample.os_path_join)
            Sample.initial
            (Sample.click_start true (Sample.click_start true Sample.initial)))
    as Hrun.
  { eapply rtc_l; [apply user_start|]. apply rtc_once, user_start. }
  repeat split; try reflexivity; [exact Hrun|].
  intros H. specialize (H _ Hrun). vm_compute in H. lia.
Qed.

Lemma restore_skips_widget_false_in_truth_test_witness :
  styleSheet
    (world (restore_widget_style
              (highlight_widget Sample.lstRecent Sample.empty_list_initial)))
    Sample.lstRecent = HIGHLIGHT_STYLE
  ∧ current_widget
      (restore_widget_style
         (highlight_widget Sample.lstRecent Sample.empty_list_initial))
    = Some Sample.lstRecent.
Proof.
  pose proof (restore_skips_widget_false_in_truth_test
                Sample.empty_list_initial Sample.lstRecent) as H.
  destruct H as (_ & Hsty & Hw & _).
  - reflexivity.
  - split; [exact Hsty|exact Hw].
Defined.

(** On the sample with the empty list of recent files: the first tooltip
    is on the list; neither button of the tooltip takes the highlight off
    it.  After "Skip" the guide still holds the list; after "Next" the tab
    widget is highlighted as well. *)
Example sample_empty_list_stays_highlighted :
  styleSheet (world Sample.empty_list_initial) Sample.lstRecent = ""
  ∧ current_widget (Sample.click_start true Sample.empty_list_initial)
    = Some Sample.lstRecent
  ∧ styleSheet
      (world (Sample.click_skip
                (Sample.click_start true Sample.empty_list_initial)))
      Sample.lstRecent = HIGHLIGHT_STYLE
  ∧ current_widget
      (Sample.click_skip (Sample.click_start true Sample.empty_list_initial))
    = Some Sample.lstRecent
  ∧ EvLog WARNING "No widget style to restore."
    ∈ trace (Sample.click_skip
               (Sample.click_start true Sample.empty_list_initial))
  ∧ overridden
      (Sample.click_next (Sample.click_start true Sample.empty_list_initial))
    = [(Sample.mainTabs, ""); (Sample.lstRecent, "")]
  ∧ styleSheet
      (world (Sample.click_next
                (Sample.click_start true Sample.empty_list_initial)))
      Sample.lstRecent = HIGHLIGHT_STYLE.
Proof.
  repeat split; try reflexivity.
  apply list_elem_of_In. vm_compute.
  repeat first [left; reflexivity|right].
Qed.

Lemma tooltip_within_host_when_it_fits_witness :
  pt_x (_calculate_tooltip_position (Sample.geometry_of Sample.btnSave)
          (parent_geometry Sample.window) (Sample.adjustSize Sample.step_save))
  = 299
  ∧ within_host_horizontally (parent_geometry Sample.window)
      (Sample.adjustSize Sample.step_save)
      (_calculate_tooltip_position (Sample.geometry_of Sample.btnSave)
         (parent_geometry Sample.window)
         (Sample.adjustSize Sample.step_save)).
Proof.
  pose proof (tooltip_within_host_when_it_fits
                (Sample.geometry_of Sample.btnSave)
                (parent_geometry Sample.window)
                (Sample.adjustSize Sample.step_save)) as [Hx Hin].
  split; [rewrite Hx; reflexivity|].
  apply Hin. vm_compute. discriminate.
Defined.

(** C7 as stated fails: in a host 300 wide, a dialog 291 wide anchored to a
    widget at the host's left edge would start left of the host; it is
    moved to 10 units inside the left edge and then ends one unit beyond
    the right edge. *)
Lemma tooltip_can_extend_outside_host :
  pt_x (_calculate_tooltip_position Sample.edge_widget Sample.narrow_window
          Sample.wide_dialog) = 110
  ∧ ¬ within_host_horizontally Sample.narrow_window Sample.wide_dialog
        (_calculate_tooltip_position Sample.edge_widget Sample.narrow_window
           Sample.wide_dialog).
Proof.
  split; [reflexivity|].
  unfold within_host_horizontally. vm_compute. intros [_ H]. by apply H.
Qed.

Lemma failing_pre_action_keeps_step_witness :
  current_step_index
    (next_step Sample.getattr Sample.adjustSize Sample.os_path_join
       Sample.failing_initial) = 0
  ∧ current_widget
      (next_step Sample.getattr Sample.adjustSize Sample.os_path_join
         Sample.failing_initial) = Some Sample.btnSave.
Proof.
  pose proof (failing_pre_action_keeps_step Sample.getattr Sample.adjustSize
                Sample.os_path_join Sample.failing_initial
                Sample.step_save_tabs "tabs" Sample.window
                (EvLog WARNING "Pre-action 'tabs' is not callable.")) as H.
  destruct H as (_ & _ & H).
  - simpl. lia.
  - reflexivity.
  - simpl. lia.
  - reflexivity.
  - reflexivity.
  - apply fails_not_callable. reflexivity.
  - simpl in H. destruct H as (Hi & Hw & _). split; [exact Hi|exact Hw].
Defined.

(** C4 as stated fails: the first step of this configuration names a
    pre-action that is not callable; the warning is logged, and the step is
    displayed, the cursor staying on it. *)
Lemma failing_pre_action_step_is_displayed :
  ¬ failure_skips_step Sample.getattr Sample.adjustSize Sample.os_path_join
      Sample.failing_initial.
Proof.
  intros H.
  specialize (H Sample.step_save_tabs "tabs" Sample.window
                (EvLog WARNING "Pre-action 'tabs' is not callable.")
                eq_refl eq_refl eq_refl).
  assert (current_step_index
            (next_step Sample.getattr Sample.adjustSize Sample.os_path_join
               Sample.failing_initial) = 0) as Hi by reflexivity.
  rewrite Hi in H. simpl in H.
  assert (-1 + 1 < 0) as Hlt; [|lia].
  apply H. apply fails_not_callable. reflexivity.
Qed.

Lemma pre_action_runs_before_widget_lookup_witness :
  app (world
         (emit (widget_not_found Sample.step_export)
            (fetched Sample.getattr Sample.step_export
               (set_current_step_index 3 Sample.initial)))) = Sample.Settings.
Proof.
  pose proof (pre_action_runs_before_widget_lookup Sample.getattr
                Sample.adjustSize Sample.os_path_join
                (set_current_step_index 3 Sample.initial)
                Sample.step_export "show_settings_tab"
                Sample.show_settings_tab) as H.
  destruct H as (_ & Hworld & _).
  - reflexivity.
  - simpl. lia.
  - reflexivity.
  - reflexivity.
  - reflexivity.
  - reflexivity.
  - rewrite Hworld. reflexivity.
Defined.

(** The "Skip" button on the first tooltip of the sample restores the save
    button's style and ends the run before the completion dialog. *)
Example sample_skip_restores_style :
  styleSheet (world (Sample.click_start true Sample.initial)) Sample.btnSave
  = HIGHLIGHT_STYLE
  ∧ styleSheet
      (world (Sample.click_skip (Sample.click_start true Sample.initial)))
      Sample.btnSave = ""
  ∧ completion_dialogs
      (Sample.click_skip (Sample.click_start true Sample.initial)) = []
  ∧ open_tooltips (Sample.click_skip (Sample.click_start true Sample.initial))
    = O.
Proof. repeat split; reflexivity. Qed.

(** * Further properties of the code *)

(** ** The order of the steps *)

Lemma sorted_of_sorted {A} (key : A → Z) (l : list A) :
  StronglySorted (key_le key) l → sorted key l = l.
Proof.
  induction 1 as [|x l Hl IH Hall]; simpl; [done|].
  rewrite IH. destruct l as [|y l']; simpl; [done|].
  apply Forall_cons in Hall as [Hxy _]. unfold key_le in Hxy.
  by rewrite (proj2 (Z.leb_le _ _) Hxy).
Qed.

(** X1. Sorting is stable: the steps of the guide that have the same
    [order] (all steps without one count as 0) are in the order the
    configuration lists them. *)
Theorem init_keeps_order_of_equal_steps {App} guide_data dir
    (wd : World App) (k : Z) :
  filter (λ step, order_key step = k) (steps (init guide_data dir wd))
  = filter (λ step, order_key step = k) (default [] (cfg_steps guide_data)).
Proof. simpl. apply sorted_stable. Qed.

(** X2. A configuration whose steps are already listed by non-decreasing
    [order] is taken as it is. *)
Theorem init_keeps_ordered_steps {App} guide_data dir (wd : World App) l :
  cfg_steps guide_data = Some l →
  StronglySorted (key_le order_key) l →
  steps (init guide_data dir wd) = l.
Proof. intros Hl Hs. simpl. rewrite Hl. simpl. by apply sorted_of_sorted. Qed.

Lemma init_keeps_ordered_steps_witness :
  steps (init Sample.failing_guide_data "guides" Sample.window)
  = [Sample.step_save_tabs; Sample.step_tabs_broken].
Proof.
  apply init_keeps_ordered_steps; [reflexivity|].
  repeat first [ apply SSorted_nil | apply SSorted_cons
               | apply Forall_nil_2 | apply Forall_cons_2 ].
  vm_compute. discriminate.
Defined.

(** ** The positioner on the screen *)

Lemma QPoint_eq (p q : QPoint) :
  pt_x p = pt_x q → pt_y p = pt_y q → p = q.
Proof. destruct p, q; simpl; congruence. Qed.

Lemma pt_qpoint_add (p d : QPoint) :
  pt_x (qpoint_add p d) = pt_x p + pt_x d
  ∧ pt_y (qpoint_add p d) = pt_y p + pt_y d.
Proof. done. Qed.

(** X10. The position follows the window: when the host window and the
    widget in it are moved by the same offset on the screen, the dialog is
    placed at the former position moved by that offset. *)
Theorem tooltip_position_moves_with_host
    (widget parent_widget : WidgetGeometry) (dialog_size : QSize)
    (d : QPoint) :
  _calculate_tooltip_position (move_by d widget) (move_by d parent_widget)
    dialog_size
  = qpoint_add
      (_calculate_tooltip_position widget parent_widget dialog_size) d.
Proof.
  apply QPoint_eq.
  - rewrite (proj1 (pt_qpoint_add _ _)), !tooltip_position_x.
    unfold widget_center_x, parent_left, parent_width, move_by,
      qpoint_add; simpl.
    repeat match goal with
           | |- context [?a <? ?b] => destruct (Z.ltb_spec a b)
           | |- context [?a >? ?b] => destruct (Z.gtb_spec a b)
           end; lia.
  - rewrite (proj2 (pt_qpoint_add _ _)), !tooltip_position_y.
    unfold widget_center_y, parent_center_y, widget_bottom, widget_top,
      move_by, qpoint_add; simpl.
    repeat match goal with
           | |- context [?a <? ?b] => destruct (Z.ltb_spec a b)
           end; lia.
Qed.

(** ** Highlighting and restoring *)
Section StyleFacts.
Context {App : Type}.
Implicit Types st : State App.

(** X7. Restoring twice is restoring once: the second call finds nothing
    to restore and only logs its warning. *)
Theorem restore_widget_style_twice st :
  restore_widget_style (restore_widget_style st)
  = emit (EvLog WARNING "No widget style to restore.")
      (restore_widget_style st).
Proof.
  apply restore_widget_style_None. unfold restore_widget_style.
  destruct (has_style_to_restore st) as [[w o]|] eqn:Hh; [done|].
  exact Hh.
Qed.

(** X8. The guide remembers one widget and one style.  After two
    highlights with no restore in between, the second of a widget that is
    true in a truth test, restoring undoes the second only: if both were of
    the same widget it is left with the highlight style, its own style
    being lost; otherwise the second widget has its style back and the
    first keeps the highlight, and in both cases the guide has nothing left
    to restore. *)
Theorem restore_undoes_latest_highlight_only st (w1 w2 : Widget) :
  widget_bool (world st) w2 = true →
  let st' :=
    restore_widget_style (highlight_widget w2 (highlight_widget w1 st)) in
  styleSheet (world st') w1 = HIGHLIGHT_STYLE
  ∧ (w1 ≠ w2 → styleSheet (world st') w2 = styleSheet (world st) w2)
  ∧ current_widget st' = None
  ∧ current_widget_original_style st' = None.
Proof.
  intros Htrue st'. subst st'.
  rewrite (restore_widget_style_Some
             (highlight_widget w2 (highlight_widget w1 st)) w2
             (styleSheet (world (highlight_widget w1 st)) w2)
             eq_refl eq_refl Htrue).
  unfold highlight_widget; simpl.
  repeat split.
  - destruct (decide (w2 = w1)) as [->|Hne].
    + by rewrite !styleSheet_setStyleSheet.
    + rewrite !styleSheet_setStyleSheet_ne, styleSheet_setStyleSheet by done.
      done.
  - intros Hne. rewrite styleSheet_setStyleSheet.
    by rewrite styleSheet_setStyleSheet_ne.
Qed.
End StyleFacts.

(** ** More on the step sequencer *)
Section GuideMore.
Context {App : Type}.
Variable getattr : string → Attr App.
Variable adjustSize : Step → QSize.
Variable os_path_join : string → string → string.

Local Abbreviation State := (State App).
Local Abbreviation body := (next_step_body getattr adjustSize os_path_join).
Local Abbreviation next := (next_step getattr adjustSize os_path_join).
Local Abbreviation fetch := (fetched getattr).
Local Abbreviation tooltip := (show_step_tooltip adjustSize os_path_join).
Local Abbreviation called := (called_pre_action getattr).
Local Abbreviation len st := (Z.of_nat (length (steps st))).
Local Abbreviation reach :=
  (reachable getattr adjustSize os_path_join).
Local Abbreviation step_of_run :=
  (run_step getattr adjustSize os_path_join).

(** *** Induction over the states of a run *)

Lemma run_invariant guide_data dir wd (I : State → Prop) :
  I (init guide_data dir wd) →
  (∀ click st,
     run_inv st → current_step_index st = -1 → I st →
     I (start getattr adjustSize os_path_join click st)) →
  (∀ st,
     run_inv st → open_tooltips st = 1%nat → I st →
     I (next_step_action getattr adjustSize os_path_join st)) →
  (∀ st,
     run_inv st → open_tooltips st = 1%nat → I st →
     I (skip_guide_action st)) →
  ∀ st, reach guide_data dir wd st → I st.
Proof.
  intros Hinit Hstart Hnext Hskip st Hreach.
  cut (reach guide_data dir wd st ∧ I st); [tauto|].
  revert st Hreach. unfold reachable.
  apply (rtc_ind_r (λ st : State,
    rtc step_of_run (init guide_data dir wd) st ∧ I st)); [done|].
  intros st1 st2 Hrtc Hstep (Hr & HI).
  split; [by eapply rtc_r|].
  destruct (reachable_inv _ _ _ _ _ _ _ Hr) as (Hinv & _).
  assert (∀ st : State, run_inv st → (0 < open_tooltips st)%nat →
          open_tooltips st = 1%nat) as Hone.
  { intros st (_ & _ & _ & Hle & _) Hpos. lia. }
  destruct Hstep as [click st Hi|st Htip|st Htip]; auto.
Qed.

(** A guide that has not advanced has no tooltip on screen. *)
Lemma run_inv_idle (st : State) :
  run_inv st → current_step_index st = -1 → open_tooltips st = O.
Proof. intros (_ & _ & _ & Hle & Hone) Hi. lia. Qed.

(** *** The effects of the building blocks, in detail *)

Lemma omap_snoc {A B} (g : A → option B) (l : list A) x :
  omap g (l ++ [x]) = omap g l ++ option_list (g x).
Proof. rewrite omap_app. simpl. by destruct (g x). Qed.

Lemma calls_emit e (st : State) :
  calls (trace (emit e st)) = calls (trace st) ++ option_list (call_of e).
Proof. unfold calls; simpl. apply omap_snoc. Qed.

Lemma fetched_effects step (st : State) :
  ∃ evs,
    trace (fetch step st) = trace st ++ evs
    ∧ calls evs = option_list (called step)
    ∧ Forall (λ e, is_tooltip_dialog e = false) evs
    ∧ images_dir (fetch step st) = images_dir st.
Proof.
  unfold fetched, run_pre_action, called_pre_action.
  destruct (pre_action step) as [name|];
    [|exists []; simpl; by rewrite app_nil_r].
  destruct (str_truthy name); [|exists []; simpl; by rewrite app_nil_r].
  destruct (getattr name) as [| |f]; simpl.
  - eexists [_; _]. rewrite <- app_assoc. repeat split; by repeat constructor.
  - eexists [_; _]. rewrite <- app_assoc. repeat split; by repeat constructor.
  - destruct (f (world st)); simpl.
    + eexists [_; _]. rewrite <- app_assoc.
      repeat split; by repeat constructor.
    + eexists [_; _; _]. rewrite <- !app_assoc.
      repeat split; by repeat constructor.
Qed.

Lemma displayed_effects widget step (st : State) :
  ∃ evs,
    trace (tooltip widget step (highlight_widget widget st))
    = trace st ++ evs
      ++ [EvTooltipDialog widget step
            (_calculate_tooltip_position (geometry (world st) widget)
               (parent_geometry (world st)) (adjustSize step))]
    ∧ calls evs = []
    ∧ Forall (λ e, is_tooltip_dialog e = false) evs
    ∧ (∀ f, image step = Some f → str_truthy f = true →
       image_path_logged os_path_join (images_dir st) f ∈ evs)
    ∧ images_dir (tooltip widget step (highlight_widget widget st))
      = images_dir st
    ∧ children (world (tooltip widget step (highlight_widget widget st)))
      = children (world st).
Proof.
  unfold show_step_tooltip, highlight_widget, image_path_logged.
  destruct (image step) as [f|]; [destruct (str_truthy f) eqn:Hf|]; simpl.
  - eexists [_; _]. rewrite <- !app_assoc.
    repeat split; try by repeat constructor.
    intros f' [= <-] _. set_solver.
  - eexists [_]. rewrite <- !app_assoc.
    repeat split; try by repeat constructor.
    intros f' [= <-]. congruence.
  - eexists [_]. rewrite <- !app_assoc.
    repeat split; by repeat constructor.
Qed.

Lemma restore_widget_style_effects (st : State) :
  ∃ e,
    trace (restore_widget_style st) = trace st ++ [e]
    ∧ call_of e = None ∧ is_tooltip_dialog e = false
    ∧ visited (restore_widget_style st) = visited st
    ∧ images_dir (restore_widget_style st) = images_dir st.
Proof.
  unfold restore_widget_style. repeat case_match; by eexists.
Qed.
(** *** Pre-actions are called once each, in step order *)

Lemma fetched_calls step (st : State) :
  calls (trace st) = omap called (visited st) →
  calls (trace (fetch step st)) = omap called (visited (fetch step st)).
Proof.
  intros Hc.
  destruct (fetched_effects step st) as (evs & -> & Hevs & _).
  destruct (fetched_frame getattr step st)
    as (_ & _ & _ & _ & _ & -> & _).
  unfold calls in *. by rewrite omap_app, omap_snoc, Hc, Hevs.
Qed.

Lemma next_step_calls (st : State) :
  calls (trace st) = omap called (visited st) →
  calls (trace (next st)) = omap called (visited (next st)).
Proof.
  apply (next_step_rec getattr adjustSize os_path_join (λ st st',
    calls (trace st) = omap called (visited st) →
    calls (trace st') = omap called (visited st'))); clear st.
  - intros st st' Hb Hc.
    pose proof (next_step_body_spec getattr adjustSize os_path_join st)
      as Hs.
    rewrite Hb in Hs.
    inversion Hs as [ | | |step w Hlt Hget Hfind]; subst; clear Hs.
    + rewrite calls_emit. simpl. by rewrite app_nil_r.
    + rewrite calls_emit. simpl. by rewrite app_nil_r.
    + destruct (displayed_effects w step (fetch step st))
        as (evs & -> & Hevs & _).
      destruct (displayed_frame adjustSize os_path_join w step
                  (fetch step st) _ eq_refl)
        as (_ & _ & _ & _ & _ & -> & _).
      rewrite <- (fetched_calls step st Hc).
      unfold calls in *. rewrite !omap_app, Hevs. simpl.
      by rewrite app_nil_r.
  - intros st st1 Hb IH Hc.
    pose proof (next_step_body_spec getattr adjustSize os_path_join st)
      as Hs.
    rewrite Hb in Hs.
    inversion Hs as [| |step Hlt Hget Hfind|]; subst; clear Hs.
    apply IH. rewrite calls_emit. simpl. rewrite app_nil_r.
    by apply fetched_calls.
Qed.

(** X5. In every state of a run the host callbacks called so far are the
    callable pre-actions of the steps up to the cursor, one call for each
    such step, in the order of the steps: no pre-action is called twice,
    none is left out, and none of a later step has run. *)
Theorem pre_actions_called_once_in_step_order guide_data dir wd
    (st : State) :
  reach guide_data dir wd st →
  calls (trace st)
  = omap called (take (Z.to_nat (current_step_index st + 1)) (steps st)).
Proof.
  intros Hreach.
  destruct (reachable_inv _ _ _ _ _ _ _ Hreach) as ((_ & <- & _) & _).
  revert st Hreach. apply run_invariant.
  - done.
  - intros click st _ _ Hc. unfold start, show_message_dialog.
    destruct click.
    + apply next_step_calls. rewrite calls_emit. simpl.
      by rewrite app_nil_r.
    + rewrite calls_emit. simpl. by rewrite app_nil_r.
  - intros st _ _ Hc. unfold next_step_action. apply next_step_calls.
    match goal with |- context [restore_widget_style ?s] =>
      destruct (restore_widget_style_effects s)
        as (e & -> & He & _ & -> & _) end.
    simpl. unfold calls in *. by rewrite omap_snoc, He, app_nil_r.
  - intros st _ _ Hc. unfold skip_guide_action.
    rewrite calls_emit. simpl. rewrite app_nil_r.
    match goal with |- context [restore_widget_style ?s] =>
      destruct (restore_widget_style_effects s)
        as (e & -> & He & _ & -> & _) end.
    simpl. unfold calls in *. by rewrite omap_snoc, He, app_nil_r.
Qed.

(** *** No step is passed over silently *)

(** X4. [next_step] accounts for every step it passes over: each step
    between the cursor before the call and the cursor after it has its
    "not found" warning among the records the call adds to the log. *)
Theorem skipped_steps_are_logged (st : State) :
  -1 ≤ current_step_index st →
  ∃ evs,
    trace (next st) = trace st ++ evs
    ∧ ∀ i,
        current_step_index st < i < current_step_index (next st) →
        ∃ step,
          steps st !! Z.to_nat i = Some step
          ∧ widget_not_found step ∈ evs.
Proof.
  apply (next_step_rec getattr adjustSize os_path_join (λ st st',
    -1 ≤ current_step_index st →
    ∃ evs,
      trace st' = trace st ++ evs
      ∧ ∀ i,
          current_step_index st < i < current_step_index st' →
          ∃ step,
            steps st !! Z.to_nat i = Some step
            ∧ widget_not_found step ∈ evs)); clear st.
  - intros st st' Hb Hidx.
    pose proof (next_step_body_spec getattr adjustSize os_path_join st)
      as Hs.
    rewrite Hb in Hs.
    inversion Hs as [ | | |step w Hlt Hget Hfind]; subst; clear Hs.
    + eexists. split; [done|]. simpl. lia.
    + eexists. split; [done|]. simpl. lia.
    + destruct (displayed_frame adjustSize os_path_join w step
                  (fetch step st) _ eq_refl)
        as (_ & Hi & _ & _ & _ & _ & _ & _ & _ & Hp & _).
      destruct (fetched_frame getattr step st)
        as (_ & Hi' & _ & _ & _ & _ & _ & _ & _ & Hp').
      destruct (transitivity Hp' Hp) as [evs Hevs].
      exists evs. split; [done|]. rewrite Hi, Hi'. lia.
  - intros st st1 Hb IH Hidx.
    pose proof (next_step_body_spec getattr adjustSize os_path_join st)
      as Hs.
    rewrite Hb in Hs.
    inversion Hs as [| |step Hlt Hget Hfind|]; subst; clear Hs.
    destruct (fetched_frame getattr step st)
      as (Hf1 & Hf2 & _ & _ & _ & _ & _ & _ & _ & [evs0 Hevs0]).
    simpl in IH. rewrite Hf1, Hf2 in IH.
    destruct IH as (evs1 & Htr & Hall); [lia|].
    exists (evs0 ++ [widget_not_found step] ++ evs1). split.
    + rewrite Htr, Hevs0. by rewrite <- !app_assoc.
    + intros i Hi.
      destruct (decide (i = current_step_index st + 1)) as [->|Hne].
      * exists step. rewrite py_getitem_in_range in Hget by lia.
        split; [done|].
        rewrite !elem_of_app, list_elem_of_singleton. auto.
      * destruct (Hall i) as (step' & ? & ?); [lia|].
        exists step'. split; [done|].
        rewrite !elem_of_app. auto.
Qed.

(** *** The step on display *)

(** X6. When [next_step] ends by showing a tooltip, the tooltip is for the
    step under the cursor, its widget is the first child of the host that
    bears the step's object name, that widget is the one the guide holds
    and it carries the highlight style, and the dialog is placed where the
    positioner puts it for that widget's geometry. *)
Theorem displayed_step_is_found_and_placed (st : State) w step pos :
  last (trace (next st)) = Some (EvTooltipDialog w step pos) →
  py_getitem (steps (next st)) (current_step_index (next st)) = Some step
  ∧ findChild (world (next st)) (object_name step) = Some w
  ∧ current_widget (next st) = Some w
  ∧ styleSheet (world (next st)) w = HIGHLIGHT_STYLE
  ∧ pos = _calculate_tooltip_position (geometry (world (next st)) w)
            (parent_geometry (world (next st))) (adjustSize step).
Proof.
  revert w step pos.
  apply (next_step_rec getattr adjustSize os_path_join (λ st st',
    ∀ w step pos,
      last (trace st') = Some (EvTooltipDialog w step pos) →
      py_getitem (steps st') (current_step_index st') = Some step
      ∧ findChild (world st') (object_name step) = Some w
      ∧ current_widget st' = Some w
      ∧ styleSheet (world st') w = HIGHLIGHT_STYLE
      ∧ pos = _calculate_tooltip_position (geometry (world st') w)
                (parent_geometry (world st')) (adjustSize step)));
    clear st; [|by auto].
  intros st st' Hb w step pos Hlast.
  pose proof (next_step_body_spec getattr adjustSize os_path_join st) as Hs.
  rewrite Hb in Hs.
  inversion Hs as [ | | |step' w' Hlt Hget Hfind]; subst; clear Hs.
  - simpl in Hlast. by rewrite last_snoc in Hlast.
  - simpl in Hlast. by rewrite last_snoc in Hlast.
  - destruct (displayed_effects w' step' (fetch step' st))
      as (evs & Htr & _ & _ & _ & _ & Hch).
    rewrite Htr, app_assoc, last_snoc in Hlast.
    injection Hlast as <- <- <-.
    destruct (displayed_frame adjustSize os_path_join w' step'
                (fetch step' st) _ eq_refl)
      as (Hd1 & Hd2 & Hd3 & _ & _ & _ & _ & _ & _ & _ & Hdw & _).
    destruct (fetched_frame getattr step' st) as (Hf1 & Hf2 & _).
    rewrite Hd1, Hd2, Hf1, Hf2.
    repeat split; try done.
    + unfold findChild in *. by rewrite Hch.
    + rewrite Hdw. apply styleSheet_setStyleSheet.
    + by rewrite Hdw.
Qed.

(** X13. The widget of a step is looked up in the host as the pre-action
    left it: whether or not the widget was there before, a step whose
    callable pre-action makes its widget findable is displayed, on the
    host the callback left, with only the widget's style changed. *)
Theorem pre_action_can_reveal_widget (st : State) step name f w :
  py_getitem (steps st) (current_step_index st + 1) = Some step →
  current_step_index st + 1 < len st →
  pre_action step = Some name →
  str_truthy name = true →
  getattr name = Callable f →
  findChild (outcome_world (f (world st))) (object_name step) = Some w →
  current_step_index (next st) = current_step_index st + 1
  ∧ current_widget (next st) = Some w
  ∧ world (next st)
    = setStyleSheet w HIGHLIGHT_STYLE (outcome_world (f (world st)))
  ∧ open_tooltips (next st) = S (open_tooltips st)
  ∧ EvCall name ∈ trace (next st).
Proof.
  intros Hget Hlt Hpre Htrue Hattr Hfind.
  destruct (fetched_pre_action_called getattr st step name f Hpre Htrue
              Hattr) as (Hworld & Htrace).
  destruct (fetched_frame getattr step st)
    as (_ & Hf2 & _ & _ & Hf5 & _).
  rewrite (next_step_at_step getattr adjustSize os_path_join st step Hget
             Hlt), Hworld, Hfind.
  destruct (displayed_frame adjustSize os_path_join w step
              (fetch step st) _ eq_refl)
    as (_ & -> & -> & _ & -> & _ & _ & _ & _ & Hp & -> & _).
  rewrite Hf2, Hf5, Hworld. repeat split; try done.
  eapply elem_of_prefix; [|exact Hp].
  rewrite Htrace, !elem_of_app, !elem_of_cons. auto.
Qed.

(** *** The two ends of a run *)

(** X3. A configuration with no steps (the key absent, or an empty list):
    pressing "Start" on the introduction shows the completion dialog at
    once; nothing else happens, no widget of the host is touched. *)
Theorem empty_guide_completes_at_once guide_data dir (wd : World App) :
  default [] (cfg_steps guide_data) = [] →
  trace (start getattr adjustSize os_path_join true
           (init guide_data dir wd))
  = [EvMessageDialog "Interactive Guide"
       (default "Welcome to the guide!" (cfg_intro_message guide_data))
       "Start";
     EvMessageDialog "Guide Completed"
       (default "Guide completed!" (cfg_outro_message guide_data)) "Close"]
  ∧ world (start getattr adjustSize os_path_join true
             (init guide_data dir wd)) = wd
  ∧ current_step_index
      (start getattr adjustSize os_path_join true (init guide_data dir wd))
    = 0
  ∧ open_tooltips
      (start getattr adjustSize os_path_join true (init guide_data dir wd))
    = O.
Proof.
  intros Hempty. unfold start, show_message_dialog.
  rewrite next_step_eq. unfold next_step_body, init. simpl.
  rewrite Hempty. simpl. done.
Qed.

(** X9. "Skip Guide" ends the run without completing it: no tooltip
    dialog is left on screen, the cursor stays where it was, the completion
    dialog is not shown, and the last thing shown is the "Guide skipped."
    tooltip at offset (100, 100) in the host.  When the widget the guide
    holds is true in a truth test, it has its saved style back and the guide
    holds none. *)
Theorem skip_ends_the_run guide_data dir wd (st : State) :
  reach guide_data dir wd st →
  open_tooltips st = 1%nat →
  reach guide_data dir wd (skip_guide_action st)
  ∧ open_tooltips (skip_guide_action st) = O
  ∧ completion_dialogs (skip_guide_action st) = []
  ∧ current_step_index (skip_guide_action st) = current_step_index st
  ∧ last (trace (skip_guide_action st))
    = Some (EvToolTipText
              (qpoint_add (mkQPoint 100 100)
                 (global_origin
                    (parent_geometry (world (skip_guide_action st)))))
              "Guide skipped.")
  ∧ (∀ w o,
       current_widget st = Some w →
       current_widget_original_style st = Some o →
       widget_bool (world st) w = true →
       current_widget (skip_guide_action st) = None
       ∧ styleSheet (world (skip_guide_action st)) w = o).
Proof.
  intros Hreach Hone.
  assert (reach guide_data dir wd (skip_guide_action st)) as Hreach'.
  { apply reachable_skip; [done|]. by rewrite Hone. }
  destruct (reachable_inv _ _ _ _ _ _ _ Hreach) as (Hinv & _).
  destruct (reachable_inv _ _ _ _ _ _ _ Hreach')
    as ((_ & _ & Hcompl & _) & _).
  destruct (run_inv_closed st Hinv Hone) as (_ & Hno & Hi & Hlt & Hs & _).
  assert (open_tooltips (skip_guide_action st) = O) as Hno' by done.
  assert (current_step_index (skip_guide_action st)
          = current_step_index st) as Hi' by done.
  assert (steps (skip_guide_action st) = steps st) as Hs' by done.
  rewrite Hi', Hs', (proj2 (Z.leb_gt _ _)) in Hcompl by lia.
  repeat split; try done.
  - unfold skip_guide_action. simpl. by rewrite last_snoc.
  - unfold skip_guide_action.
    by rewrite (restore_widget_style_Some _ w o).
  - unfold skip_guide_action.
    rewrite (restore_widget_style_Some _ w o) by done. simpl.
    apply styleSheet_setStyleSheet.
Qed.

(** *** The depth of the recursion *)

(** X18. [next_step] never nests deeper than one activation for each step
    ahead of the cursor and one more for the end of the list: on a stack
    with that much room it returns what it returns on an unbounded one,
    whichever widgets are missing. *)
Theorem next_step_on_stack_room_for_every_step depth (st : State) :
  -1 ≤ current_step_index st →
  Z.max 1 (len st - current_step_index st) ≤ Z.of_nat depth →
  next_step_on_stack getattr adjustSize os_path_join depth st
  = Returned (next st).
Proof.
  intros Hidx Hroom. apply next_step_on_stack_enough.
  destruct (next_step_reaches_step_or_outro getattr adjustSize os_path_join
              st Hidx) as (_ & Hmax & _).
  lia.
Qed.

(** *** The guide leaves the styles of the host as it found them *)
Section Styles.
Hypothesis Hkeep : callbacks_keep_styles getattr.

Lemma fetched_styles step (st : State) w :
  styleSheet (world (fetch step st)) w = styleSheet (world st) w.
Proof.
  unfold fetched, run_pre_action.
  destruct (pre_action step) as [name|]; [|done].
  destruct (str_truthy name); [|done].
  destruct (getattr name) as [| |f] eqn:Hattr; [done|done|]. simpl.
  pose proof (Hkeep name f (world st) w Hattr) as Hf.
  by destruct (f (world st)).
Qed.

Lemma next_step_styles (st : State) :
  current_widget st = None →
  (∀ w, current_widget (next st) ≠ Some w →
        styleSheet (world (next st)) w = styleSheet (world st) w)
  ∧ (∀ c, current_widget (next st) = Some c →
          current_widget_original_style (next st)
          = Some (styleSheet (world st) c)).
Proof.
  apply (next_step_rec getattr adjustSize os_path_join (λ st st',
    current_widget st = None →
    (∀ w, current_widget st' ≠ Some w →
          styleSheet (world st') w = styleSheet (world st) w)
    ∧ (∀ c, current_widget st' = Some c →
            current_widget_original_style st'
            = Some (styleSheet (world st) c)))); clear st.
  - intros st st' Hb Hnone.
    pose proof (next_step_body_spec getattr adjustSize os_path_join st)
      as Hs.
    rewrite Hb in Hs.
    inversion Hs as [ | | |step w' Hlt Hget Hfind]; subst; clear Hs.
    + simpl. split; [done|]. intros c Hc. congruence.
    + simpl. split; [done|]. intros c Hc. congruence.
    + destruct (displayed_frame adjustSize os_path_join w' step
                  (fetch step st) _ eq_refl)
        as (_ & _ & -> & -> & _ & _ & _ & _ & _ & _ & -> & _).
      split.
      * intros w Hne. rewrite styleSheet_setStyleSheet_ne by congruence.
        apply fetched_styles.
      * intros c [= <-]. by rewrite fetched_styles.
  - intros st st1 Hb IH Hnone.
    pose proof (next_step_body_spec getattr adjustSize os_path_join st)
      as Hs.
    rewrite Hb in Hs.
    inversion Hs as [| |step Hlt Hget Hfind|]; subst; clear Hs.
    destruct (fetched_frame getattr step st) as (_ & _ & Hf3 & _).
    destruct IH as (IHa & IHb); [simpl; congruence|].
    simpl in IHa, IHb. split.
    + intros w Hne. rewrite IHa by done. apply fetched_styles.
    + intros c Hc. rewrite (IHb c Hc). by rewrite fetched_styles.
Qed.

(** X11. When the callbacks of the host leave style sheets alone, [start]
    is called only while no tooltip is on screen, and the buttons of a
    tooltip are pressed while the widget held is true in a truth test, the
    guide changes no style for good: in every state each widget other than
    the one it holds has the style it had when the guide was created, and
    the style saved for the widget it holds is that widget's style of then.
    With no widget held, after "Skip" or at the end, all styles are as they
    were. *)
Theorem styles_as_found guide_data dir wd (st : State) :
  orderly getattr adjustSize os_path_join guide_data dir wd st →
  (∀ w, current_widget st ≠ Some w →
        styleSheet (world st) w = styleSheet wd w)
  ∧ (∀ c, current_widget st = Some c →
          current_widget_original_style st = Some (styleSheet wd c)).
Proof.
  assert (∀ st : State,
    held_inv st → (0 < open_tooltips st)%nat → held_widget_true st →
    (∀ w, current_widget st ≠ Some w →
          styleSheet (world st) w = styleSheet wd w) →
    (∀ c, current_widget st = Some c →
          current_widget_original_style st = Some (styleSheet wd c)) →
    current_widget
      (restore_widget_style
         (set_open_tooltips (pred (open_tooltips st)) st)) = None
    ∧ ∀ w, styleSheet
             (world (restore_widget_style
                       (set_open_tooltips (pred (open_tooltips st)) st))) w
           = styleSheet wd w) as Hclosed.
  { intros s Hheld Hpos Htrue Ha Hb. unfold held_inv in Hheld.
    destruct (open_tooltips s) as [|[|n]] eqn:Hopen; [lia| |done].
    destruct Hheld as (c & o & Hc & Ho & _).
    rewrite (restore_widget_style_Some _ c o) by auto. simpl.
    split; [done|]. intros w.
    pose proof (Hb c Hc) as Ho'. rewrite Ho in Ho'. injection Ho' as ->.
    destruct (decide (c = w)) as [->|Hne].
    - by rewrite styleSheet_setStyleSheet.
    - rewrite styleSheet_setStyleSheet_ne by done.
      apply Ha. congruence. }
  intros Hrun.
  cut (orderly getattr adjustSize os_path_join guide_data dir wd st
       ∧ (∀ w, current_widget st ≠ Some w →
               styleSheet (world st) w = styleSheet wd w)
       ∧ (∀ c, current_widget st = Some c →
               current_widget_original_style st = Some (styleSheet wd c)));
    [tauto|].
  revert st Hrun. unfold orderly at 1.
  apply (rtc_ind_r (λ st : State,
    orderly getattr adjustSize os_path_join guide_data dir wd st
    ∧ (∀ w, current_widget st ≠ Some w →
            styleSheet (world st) w = styleSheet wd w)
    ∧ (∀ c, current_widget st = Some c →
            current_widget_original_style st = Some (styleSheet wd c))));
    [split; [apply rtc_refl|done]|].
  intros st1 st2 _ Hstep (Hr & Ha & Hb).
  split; [by eapply rtc_r|].
  pose proof (orderly_held_inv _ _ _ _ _ _ _ Hr) as Hheld.
  destruct Hstep as [click st Hno|st Htip Htrue|st Htip Htrue].
  - assert (current_widget st = None) as Hnone.
    { unfold held_inv in Hheld. rewrite Hno in Hheld. tauto. }
    unfold start, show_message_dialog. destruct click; [|done].
    match goal with |- context [next ?s] =>
      destruct (next_step_styles s) as (Ha' & Hb'); [done|] end.
    simpl in Ha', Hb'. split.
    + intros w Hne. rewrite Ha' by done. apply Ha. congruence.
    + intros c Hc. rewrite (Hb' c Hc). f_equal. apply Ha. congruence.
  - destruct (Hclosed st Hheld Htip Htrue Ha Hb) as (Hnone & Hall).
    unfold next_step_action.
    destruct (next_step_styles _ Hnone) as (Ha' & Hb'). split.
    + intros w Hne. by rewrite Ha', Hall.
    + intros c Hc. by rewrite (Hb' c Hc), Hall.
  - destruct (Hclosed st Hheld Htip Htrue Ha Hb) as (Hnone & Hall).
    unfold skip_guide_action. simpl. split.
    + intros w _. apply Hall.
    + intros c Hc. congruence.
Qed.
End Styles.

(** *** Images come from the directory given to the guide *)

Lemma images_from_app dir (tr evs : list Event) :
  images_from os_path_join dir tr →
  Forall (λ e, is_tooltip_dialog e = false) evs →
  images_from os_path_join dir (tr ++ evs).
Proof.
  intros Htr Hevs w step pos f Hin Himg Hf.
  apply elem_of_app in Hin as [Hin|Hin].
  - apply elem_of_app. left. by eapply Htr.
  - rewrite Forall_forall in Hevs. by apply Hevs in Hin.
Qed.

Lemma images_from_display dir (tr evs : list Event) w step pos :
  images_from os_path_join dir tr →
  Forall (λ e, is_tooltip_dialog e = false) evs →
  (∀ f, image step = Some f → str_truthy f = true →
        image_path_logged os_path_join dir f ∈ evs) →
  images_from os_path_join dir (tr ++ evs ++ [EvTooltipDialog w step pos]).
Proof.
  intros Htr Hevs Hlog w' step' pos' f Hin Himg Hf.
  rewrite !elem_of_app, list_elem_of_singleton in Hin.
  rewrite !elem_of_app.
  destruct Hin as [Hin|[Hin|[= -> -> ->]]].
  - left. by eapply Htr.
  - rewrite Forall_forall in Hevs. by apply Hevs in Hin.
  - right. left. by apply Hlog.
Qed.

Lemma next_step_images (st : State) :
  images_from os_path_join (images_dir st) (trace st) →
  images_dir (next st) = images_dir st
  ∧ images_from os_path_join (images_dir st) (trace (next st)).
Proof.
  apply (next_step_rec getattr adjustSize os_path_join (λ st st',
    images_from os_path_join (images_dir st) (trace st) →
    images_dir st' = images_dir st
    ∧ images_from os_path_join (images_dir st) (trace st'))); clear st.
  - intros st st' Hb Him.
    pose proof (next_step_body_spec getattr adjustSize os_path_join st)
      as Hs.
    rewrite Hb in Hs.
    inversion Hs as [ | | |step w' Hlt Hget Hfind]; subst; clear Hs.
    + split; [done|]. simpl. apply images_from_app; [done|].
      by repeat constructor.
    + split; [done|]. simpl. apply images_from_app; [done|].
      by repeat constructor.
    + destruct (fetched_effects step st) as (evs0 & Htr0 & _ & Hq0 & Hd0).
      destruct (displayed_effects w' step (fetch step st))
        as (evs & -> & _ & Hq & Hlog & -> & _).
      rewrite Hd0 in *. split; [done|].
      apply images_from_display; [|done|done].
      rewrite Htr0. by apply images_from_app.
  - intros st st1 Hb IH Him.
    pose proof (next_step_body_spec getattr adjustSize os_path_join st)
      as Hs.
    rewrite Hb in Hs.
    inversion Hs as [| |step Hlt Hget Hfind|]; subst; clear Hs.
    destruct (fetched_effects step st) as (evs0 & Htr0 & _ & Hq0 & Hd0).
    simpl in IH. rewrite Hd0, Htr0 in IH.
    apply IH. rewrite <- app_assoc. apply images_from_app; [done|].
    apply Forall_app. split; [done|]. by repeat constructor.
Qed.

(** X12. Images are looked up in the directory given to the guide when it
    was created: in every state of a run, each tooltip dialog shown for a
    step that names an image comes with the log record of that image's
    path, which is [os.path.join] of that directory and the file name. *)
Theorem images_come_from_images_dir guide_data dir wd (st : State) :
  reach guide_data dir wd st →
  images_dir st = dir ∧ images_from os_path_join dir (trace st).
Proof.
  revert st. apply (run_invariant guide_data dir wd (λ st,
    images_dir st = dir ∧ images_from os_path_join dir (trace st))).
  - split; [done|]. intros w step pos f Hin. by apply elem_of_nil in Hin.
  - intros click st _ _ (Hd & Him). subst dir.
    unfold start, show_message_dialog.
    match goal with |- context [emit ?e st] =>
      assert (images_from os_path_join (images_dir st) (trace (emit e st)))
        as Him' by (simpl; apply images_from_app; [done|];
                    by repeat constructor);
      pose proof (next_step_images (emit e st) Him') as Hnext
    end.
    destruct click; done.
  - intros st _ _ (Hd & Him). subst dir. unfold next_step_action.
    match goal with |- context [restore_widget_style ?s] =>
      destruct (restore_widget_style_effects s)
        as (e & Htr & _ & He & _ & Hdir);
      assert (images_from os_path_join
                (images_dir (restore_widget_style s))
                (trace (restore_widget_style s))) as Him'
    end.
    { rewrite Htr, Hdir. simpl. apply images_from_app; [done|].
      by repeat constructor. }
    apply next_step_images in Him' as (Hd' & Him'').
    rewrite Hdir in Hd', Him''. done.
  - intros st _ _ (Hd & Him). subst dir. unfold skip_guide_action.
    match goal with |- context [restore_widget_style ?s] =>
      destruct (restore_widget_style_effects s)
        as (e & Htr & _ & He & _ & Hdir) end.
    simpl. rewrite Htr, Hdir. simpl. split; [done|].
    rewrite <- app_assoc. apply images_from_app; [done|].
    by repeat constructor.
Qed.

(** *** Each step is displayed at most once, in order *)

Lemma shown_steps_quiet (evs : list Event) :
  Forall (λ e, is_tooltip_dialog e = false) evs → shown_steps evs = [].
Proof.
  induction 1 as [|e evs He _ IH]; [done|].
  destruct e; simpl in He; first [discriminate He | exact IH].
Qed.

Lemma next_step_shown_steps (st : State) :
  shown_steps (trace st) `sublist_of` visited st →
  shown_steps (trace (next st)) `sublist_of` visited (next st).
Proof.
  apply (next_step_rec getattr adjustSize os_path_join (λ st st',
    shown_steps (trace st) `sublist_of` visited st →
    shown_steps (trace st') `sublist_of` visited st')); clear st.
  - intros st st' Hb Hsub.
    pose proof (next_step_body_spec getattr adjustSize os_path_join st)
      as Hs.
    rewrite Hb in Hs.
    inversion Hs as [ | | |step w Hlt Hget Hfind]; subst; clear Hs.
    + simpl. unfold shown_steps in *. rewrite omap_snoc. simpl.
      by rewrite app_nil_r.
    + simpl. unfold shown_steps in *. rewrite omap_snoc. simpl.
      by rewrite app_nil_r.
    + destruct (fetched_effects step st) as (evs0 & Htr0 & _ & Hq0 & _).
      destruct (displayed_effects w step (fetch step st))
        as (evs & -> & _ & Hq & _).
      destruct (displayed_frame adjustSize os_path_join w step
                  (fetch step st) _ eq_refl)
        as (_ & _ & _ & _ & _ & -> & _).
      destruct (fetched_frame getattr step st)
        as (_ & _ & _ & _ & _ & -> & _).
      rewrite Htr0. unfold shown_steps in *.
      rewrite !omap_app.
      fold (shown_steps evs0). fold (shown_steps evs).
      rewrite (shown_steps_quiet evs0 Hq0), (shown_steps_quiet evs Hq).
      simpl. rewrite app_nil_r. by apply sublist_app.
  - intros st st1 Hb IH Hsub.
    pose proof (next_step_body_spec getattr adjustSize os_path_join st)
      as Hs.
    rewrite Hb in Hs.
    inversion Hs as [| |step Hlt Hget Hfind|]; subst; clear Hs.
    apply IH. simpl.
    destruct (fetched_effects step st) as (evs0 & -> & _ & Hq0 & _).
    destruct (fetched_frame getattr step st)
      as (_ & _ & _ & _ & _ & -> & _).
    unfold shown_steps in *. rewrite !omap_app.
    fold (shown_steps evs0). rewrite (shown_steps_quiet evs0 Hq0).
    simpl. rewrite !app_nil_r. by apply sublist_inserts_r.
Qed.

(** X16. In every state of a run the steps whose tooltips have been shown
    are a subsequence of the step list up to the cursor: each step is
    displayed at most once, and the displays follow the sorted order. *)
Theorem steps_displayed_once_in_order guide_data dir wd (st : State) :
  reach guide_data dir wd st →
  shown_steps (trace st)
  `sublist_of` take (Z.to_nat (current_step_index st + 1)) (steps st).
Proof.
  intros Hreach.
  destruct (reachable_inv _ _ _ _ _ _ _ Hreach) as ((_ & <- & _) & _).
  revert st Hreach. apply run_invariant.
  - done.
  - intros click st _ _ Hsub. unfold start, show_message_dialog.
    match goal with |- context [emit ?e st] =>
      assert (shown_steps (trace (emit e st)) `sublist_of`
                visited (emit e st)) as Hsub'
    end.
    { simpl. unfold shown_steps in *. rewrite omap_snoc. simpl.
      by rewrite app_nil_r. }
    destruct click; [|done]. by apply next_step_shown_steps.
  - intros st _ _ Hsub. unfold next_step_action.
    apply next_step_shown_steps.
    match goal with |- context [restore_widget_style ?s] =>
      destruct (restore_widget_style_effects s)
        as (e & -> & _ & He & -> & _) end.
    simpl. unfold shown_steps in *. rewrite omap_snoc.
    destruct e; try done; simpl; by rewrite app_nil_r.
  - intros st _ _ Hsub. unfold skip_guide_action. simpl.
    match goal with |- context [restore_widget_style ?s] =>
      destruct (restore_widget_style_effects s)
        as (e & -> & _ & He & -> & _) end.
    simpl. unfold shown_steps in *. rewrite !omap_snoc.
    destruct e; try done; simpl; by rewrite !app_nil_r.
Qed.
End GuideMore.

(** ** [GuidedUI]: from the configuration file to the guide *)
Section LoaderFacts.
Context {App : Type}.
Variable open_file : string → OpenResult.
Variable json_load : string → JsonResult.
Variable os_path_dirname : string → string.
Variable getattr : string → Attr App.
Variable adjustSize : Step → QSize.
Variable os_path_join : string → string → string.

Local Abbreviation new_GuidedUI :=
  (GuidedUI_init open_file json_load os_path_dirname).

Lemma GuidedUI_init_inr path (wd : World App) st0 :
  snd (new_GuidedUI path wd) = inr st0 →
  fst (new_GuidedUI path wd) = []
  ∧ ∃ guide_data,
      try_load open_file json_load path = Loaded (Configuration guide_data)
      ∧ st0 = init guide_data (os_path_dirname path) wd.
Proof.
  unfold GuidedUI_init, load_guide_config.
  destruct (try_load open_file json_load path) as [[d|e]|e]; simpl.
  - intros [= <-]. eauto.
  - done.
  - by destruct (caught_by_loader e).
Qed.

(** X14. A guide built from a configuration file looks for its images
    beside that file: when [GuidedUI] is created without an error nothing
    is logged, and in every state the guide runs into from there, each
    tooltip dialog of a step with an image comes with the log record of
    the image's path, the join of the directory of the configuration file
    and the file name. *)
Theorem images_beside_the_configuration path (wd : World App) st0 st :
  snd (new_GuidedUI path wd) = inr st0 →
  rtc (run_step getattr adjustSize os_path_join) st0 st →
  fst (new_GuidedUI path wd) = []
  ∧ images_dir st = os_path_dirname path
  ∧ images_from os_path_join (os_path_dirname path) (trace st).
Proof.
  intros Hnew Hrun.
  destruct (GuidedUI_init_inr path wd st0 Hnew) as (Hlog & d & _ & ->).
  split; [done|].
  by apply (images_come_from_images_dir getattr adjustSize os_path_join
              d (os_path_dirname path) wd).
Qed.
End LoaderFacts.

(** ** The further properties on the sample application *)

Lemma sample_callbacks_keep_styles : callbacks_keep_styles Sample.getattr.
Proof.
  intros name f wd w. unfold Sample.getattr.
  repeat case_match; intros [= <-]; done.
Qed.

Lemma empty_guide_completes_at_once_witness :
  current_step_index
    (start Sample.getattr Sample.adjustSize Sample.os_path_join true
       (init (mkGuideData None None None None) "guides" Sample.window))
  = 0.
Proof.
  refine (proj1 (proj2 (proj2
            (empty_guide_completes_at_once Sample.getattr Sample.adjustSize
               Sample.os_path_join (mkGuideData None None None None)
               "guides" Sample.window _)))).
  reflexivity.
Defined.

Lemma skipped_steps_are_logged_witness :
  ∃ evs,
    trace (next_step Sample.getattr Sample.adjustSize Sample.os_path_join
             Sample.initial)
    = trace Sample.initial ++ evs
    ∧ ∀ i,
        current_step_index Sample.initial < i
        < current_step_index
            (next_step Sample.getattr Sample.adjustSize Sample.os_path_join
               Sample.initial) →
        ∃ step,
          steps Sample.initial !! Z.to_nat i = Some step
          ∧ widget_not_found step ∈ evs.
Proof.
  apply (skipped_steps_are_logged Sample.getattr Sample.adjustSize
           Sample.os_path_join Sample.initial).
  simpl. lia.
Defined.

Lemma pre_actions_called_once_in_step_order_witness :
  calls (trace (Sample.click_next (Sample.click_next
                  (Sample.click_next
                     (Sample.click_start true Sample.initial)))))
  = ["show_settings_tab"; "show_settings_tab"].
Proof.
  exact (pre_actions_called_once_in_step_order Sample.getattr
           Sample.adjustSize Sample.os_path_join Sample.guide_data "guides"
           Sample.window _ sample_completed_reachable).
Defined.

Lemma displayed_step_is_found_and_placed_witness :
  findChild
    (world (next_step Sample.getattr Sample.adjustSize Sample.os_path_join
              Sample.initial))
    (object_name Sample.step_save) = Some Sample.btnSave.
Proof.
  refine (proj1 (proj2
            (displayed_step_is_found_and_placed Sample.getattr
               Sample.adjustSize Sample.os_path_join Sample.initial
               Sample.btnSave Sample.step_save (mkQPoint 299 149) _))).
  reflexivity.
Defined.

Lemma pre_action_can_reveal_widget_witness :
  EvCall "show_settings_tab"
  ∈ trace (next_step Sample.getattr Sample.adjustSize Sample.os_path_join
             (set_current_step_index 2 Sample.initial)).
Proof.
  refine (proj2 (proj2 (proj2 (proj2
            (pre_action_can_reveal_widget Sample.getattr Sample.adjustSize
               Sample.os_path_join (set_current_step_index 2 Sample.initial)
               Sample.step_settings "show_settings_tab"
               Sample.show_settings_tab Sample.tabSettings
               _ _ _ _ _ _))))); reflexivity.
Defined.

Lemma skip_ends_the_run_witness :
  completion_dialogs
    (skip_guide_action (Sample.click_start true Sample.initial)) = []
  ∧ styleSheet
      (world (skip_guide_action (Sample.click_start true Sample.initial)))
      Sample.btnSave = "".
Proof.
  pose proof (skip_ends_the_run Sample.getattr Sample.adjustSize
                Sample.os_path_join Sample.guide_data "guides" Sample.window
                _ sample_started_reachable eq_refl)
    as (_ & _ & Hcompl & _ & _ & Hheld).
  split; [exact Hcompl|].
  exact (proj2 (Hheld Sample.btnSave "" eq_refl eq_refl eq_refl)).
Defined.

Lemma sample_started_orderly :
  orderly Sample.getattr Sample.adjustSize Sample.os_path_join
    Sample.guide_data "guides" Sample.window
    (Sample.click_start true Sample.initial).
Proof. apply orderly_start_first. Qed.

Lemma styles_as_found_witness :
  current_widget_original_style (Sample.click_start true Sample.initial)
  = Some (styleSheet Sample.window Sample.btnSave).
Proof.
  refine (proj2
            (styles_as_found Sample.getattr Sample.adjustSize
               Sample.os_path_join sample_callbacks_keep_styles
               Sample.guide_data "guides" Sample.window _
               sample_started_orderly) Sample.btnSave _).
  reflexivity.
Defined.

Lemma restore_undoes_latest_highlight_only_witness :
  styleSheet
    (world (restore_widget_style
              (highlight_widget Sample.mainTabs
                 (highlight_widget Sample.btnSave Sample.initial))))
    Sample.btnSave = HIGHLIGHT_STYLE
  ∧ styleSheet
      (world (restore_widget_style
                (highlight_widget Sample.mainTabs
                   (highlight_widget Sample.btnSave Sample.initial))))
      Sample.mainTabs = "".
Proof.
  pose proof (restore_undoes_latest_highlight_only Sample.initial
                Sample.btnSave Sample.mainTabs eq_refl) as (Hfirst & Hsnd & _).
  split; [exact Hfirst|].
  rewrite Hsnd; [reflexivity|discriminate].
Defined.

Lemma next_step_on_stack_room_for_every_step_witness :
  next_step_on_stack Sample.getattr Sample.adjustSize Sample.os_path_join 6
    Sample.initial
  = Returned
      (next_step Sample.getattr Sample.adjustSize Sample.os_path_join
         Sample.initial).
Proof.
  apply (next_step_on_stack_room_for_every_step Sample.getattr
           Sample.adjustSize Sample.os_path_join 6 Sample.initial).
  - simpl. lia.
  - vm_compute. discriminate.
Defined.

Lemma highlight_restore_round_trip_witness :
  styleSheet
    (world (restore_widget_style
              (highlight_widget Sample.btnSave Sample.initial)))
    Sample.btnSave = ""
  ∧ current_widget
      (restore_widget_style (highlight_widget Sample.btnSave Sample.initial))
    = None.
Proof.
  pose proof (highlight_restore_round_trip Sample.initial Sample.btnSave
                eq_refl) as (_ & _ & _ & Hsty & _ & Hnone & _).
  split; [rewrite Hsty; reflexivity|exact Hnone].
Defined.

Lemma images_come_from_images_dir_witness :
  images_from Sample.os_path_join "guides"
    (trace (Sample.click_start true Sample.initial)).
Proof.
  exact (proj2
           (images_come_from_images_dir Sample.getattr Sample.adjustSize
              Sample.os_path_join Sample.guide_data "guides" Sample.window
              _ sample_started_reachable)).
Defined.

Lemma images_beside_the_configuration_witness :
  images_from Sample.os_path_join "guides"
    (trace (Sample.click_next (Sample.click_start true Sample.initial))).
Proof.
  refine (proj2 (proj2
            (images_beside_the_configuration SampleFiles.open_file
               SampleFiles.json_load SampleFiles.os_path_dirname
               Sample.getattr Sample.adjustSize Sample.os_path_join
               SampleFiles.config_path Sample.window Sample.initial _ _ _))).
  - reflexivity.
  - exact sample_second_step_reachable.
Defined.

(** A directory in place of the file raises something the loader does not
    catch: the exception passes through and nothing is logged. *)
Example sample_uncaught_load_error_is_not_logged :
  GuidedUI_init SampleFiles.open_file SampleFiles.json_load
    SampleFiles.os_path_dirname "guides" Sample.window
  = ([], inl (ExcOther "IsADirectoryError" "Is a directory: 'guides'")).
Proof. reflexivity. Qed.

(** A file that holds a list is loaded without an error; building the
    guide on it raises, nothing is logged, and no guide exists. *)
Example sample_list_document_raises_in_init :
  load_guide_config SampleFiles.open_file SampleFiles.json_load
    "guides/list.json"
  = ([], inr (NotAConfiguration
                (ExcOther "AttributeError"
                   "'list' object has no attribute 'get'")))
  ∧ GuidedUI_init SampleFiles.open_file SampleFiles.json_load
      SampleFiles.os_path_dirname "guides/list.json" Sample.window
    = ([], inl (ExcOther "AttributeError"
                  "'list' object has no attribute 'get'")).
Proof. split; reflexivity. Qed.

Lemma steps_displayed_once_in_order_witness :
  shown_steps
    (trace (Sample.click_next (Sample.click_start true Sample.initial)))
  `sublist_of` [Sample.step_unordered; Sample.step_save; Sample.step_tabs].
Proof.
  exact (steps_displayed_once_in_order Sample.getattr Sample.adjustSize
           Sample.os_path_join Sample.guide_data "guides" Sample.window
           _ sample_second_step_reachable).
Defined.
